(** * teldrive-upload: the chunked, resumable upload pipeline

    A shallow embedding of [pkg/services/upload.go] (the [UploadService]
    with [checkFileExists], [shouldRetry] and [UploadFile]) and of the
    counters of [pkg/pb] that [UploadFile] touches, then of the
    directory side of the service ([CreateRemoteDir],
    [readMetaDataForPath], [list], [checkFileExistsInDirectory],
    [UploadFilesInDirectory], [GetFilesInDirectoryInfo]) and of the
    renderer's [clearAndWriteProgress], followed by the properties of
    the upload pipeline and of these.

    Conventions.
    - Go's [int64] and (64-bit) [int] are integers of [Z] with the
      wrap-around of two's complement written out ([Int64.wrap]).
    - The outside world (local file system, remote API, scheduler) is an
      explicit oracle, the record [Env]; a run of [UploadFile] is a pure
      function of the service, the oracle and the arguments, and yields
      the sequence of observable events together with the way the call
      ended.
    - The HTTP client, the pacer and the logger are collaborators: a
      request is an event, its answer comes from the oracle. *)

From Stdlib Require Import Ascii.
From stdpp Require Import gmap strings list pretty sorting.

Local Open Scope Z_scope.

(** ** 64-bit integers *)

Module Int64.
Definition min_int : Z := - 2 ^ 63.
Definition max_int : Z := 2 ^ 63 - 1.

Definition in_range (z : Z) : Prop := min_int ≤ z ≤ max_int.

(** Reduction of a mathematical integer to its two's complement
    representative. *)
Definition wrap (z : Z) : Z := (z + 2 ^ 63) `mod` 2 ^ 64 - 2 ^ 63.

Definition add (a b : Z) : Z := wrap (a + b).
Definition sub (a b : Z) : Z := wrap (a - b).
Definition mul (a b : Z) : Z := wrap (a * b).
(** Go's [/] and [%] truncate toward zero. *)
Definition quot (a b : Z) : Z := wrap (a `quot` b).
Definition rem (a b : Z) : Z := a `rem` b.
End Int64.

(** ** Data model ([pkg/types], as used by the service) *)

(** [types.PartFile]: the part descriptor the remote API answers with. *)
Record PartFile := mkPartFile {
  pf_Name : string;
  pf_PartId : Z;
  pf_PartNo : Z;
  pf_Size : Z;
  pf_ChannelID : Z;
  pf_Encrypted : bool;
  pf_Salt : string;
}.

(** [types.FilePart]: one entry of the manifest. *)
Record FilePart := mkFilePart {
  fp_ID : Z;
  fp_PartNo : Z;
  fp_Salt : string;
}.

(** [types.UploadFile]: the body of [GET /api/uploads/<hash>]. *)
Record UploadFileInfo := mkUploadFileInfo {
  uf_Parts : list PartFile;
}.

(** [types.FilePayload]: the manifest posted to [/api/files]. *)
Record FilePayload := mkFilePayload {
  py_Name : string;
  py_Type : string;
  py_Parts : list FilePart;
  py_MimeType : string;
  py_Path : string;
  py_Size : Z;
  py_ChannelID : Z;
  py_Encrypted : bool;
}.

Record FileInfo := mkFileInfo { fi_Name : string }.

(** [types.ReadMetadataResponse]. *)
Record ReadMetadataResponse := mkReadMetadataResponse {
  md_Files : list FileInfo;
}.

(** Go errors; [err_retriable] is what [fserrors.ShouldRetry] answers for
    the error. *)
Record error := mkError {
  err_msg : string;
  err_retriable : bool;
}.

Definition io_EOF : error := mkError "EOF" false.
Definition errIncomplete : error := mkError "uploaded parts incomplete" false.

(** ** The part plan (upload.go, lines 193-196 and 219-224) *)

(** [totalParts := fileSize / u.partSize; if fileSize%u.partSize != 0
    { totalParts++ }] *)
Definition totalParts (fileSize partSize : Z) : Z :=
  let q := Int64.quot fileSize partSize in
  if bool_decide (Int64.rem fileSize partSize ≠ 0) then Int64.add q 1 else q.

(** The body of the dispatch loop up to the clamp: [start := i *
    u.partSize; end := start + u.partSize; if end > fileSize { end =
    fileSize }]. *)
Definition partRange (fileSize partSize i : Z) : Z * Z :=
  let start := Int64.mul i partSize in
  let end_ := Int64.add start partSize in
  (start, if bool_decide (end_ > fileSize) then fileSize else end_).

(** [for i := int64(0); i < totalParts; i++]: the indices visited and
    the range computed for each. *)
Definition plannedParts (fileSize partSize : Z) : list (Z * (Z * Z)) :=
  (λ i, (i, partRange fileSize partSize i)) <$> seqZ 0 (totalParts fileSize partSize).

(** ** Collaborators: requests, events, oracle *)

(** [md5.Sum] is kept symbolic: a digest is its preimage. *)
Inductive digest := md5_Sum (input : string).

(** The requests [UploadFile] can issue. [PostPart] carries the query
    parameters of the part upload that the properties below speak about
    and the byte range streamed as its body ([start], [contentLength]);
    [partName] is left out (the workers share that variable). *)
Inductive request :=
| GetFind (name path : string)
| GetSession (session : digest)
| PostPart (session : digest) (fileName : string) (partNo channelId : Z)
           (encrypted : bool) (start contentLength : Z)
| PostFiles (payload : FilePayload)
| DeleteSession (session : digest).

(** Levels of the structured logger. An entry of level [Fatal] is
    recorded like any other; what the logger does once it has written
    one is the logger's business, and the run goes on as [UploadFile] is
    written ([return err]). *)
Inductive level := Debug | Info | Error | Fatal.

Inductive event :=
| EvLog (l : level) (msg : string)
| EvAddBar (total : Z)
| EvAddExisting (size : Z)
| EvBarIncr (n : Z)
| EvBarAbort
| EvBarFinish
| EvBarClose
| EvHTTP (r : request).

(** How a call of [UploadFile] ends. [Panicked] is a Go run-time panic,
    [Blocked] a send that no goroutine will ever receive. *)
Inductive outcome :=
| Returned (err : option error)
| Panicked (msg : string)
| Blocked.

(** What [rest.Client.CallJSON] hands back: an error (with or without a
    response), or a response whose body has been decoded into the
    destination. *)
Inductive call_result (A : Type) :=
| CallErr (resp : option Z) (e : error)
| CallOk (status : Z) (body : A).
Arguments CallErr {A} resp e.
Arguments CallOk {A} status body.

(** One invocation of a paced closure: the state of the context
    ([ctx.Err()]) when [shouldRetry] looks at it, and the answer. *)
Record attempt (A : Type) := mkAttempt {
  att_ctx : option error;
  att_res : call_result A;
}.
Arguments mkAttempt {A} att_ctx att_res.
Arguments att_ctx {A} a.
Arguments att_res {A} a.

(** The local file as [UploadFile] sees it: the results of [os.Open] and
    of an I/O failure of [file.Read], its size, and what
    [http.DetectContentType] makes of its first 512 bytes. *)
Record LocalFile := mkLocalFile {
  lf_open : option error;
  lf_read : option error;
  lf_size : Z;
  lf_mime : string;
}.

(** What happens to the worker of one part: its own [os.Open], its
    [file.Seek], and the answer to its [POST]. *)
Record PartWorld := mkPartWorld {
  pw_open : option error;
  pw_seek : option error;
  pw_call : call_result PartFile;
}.

Record Env := mkEnv {
  env_file : LocalFile;
  env_find : nat → attempt ReadMetadataResponse;
  env_session : nat → attempt UploadFileInfo;
  env_part : Z → PartWorld;
  env_commit : nat → attempt unit;
  env_delete : nat → attempt unit;
  (** the scheduler: which of the pending workers delivers next *)
  env_picks : list nat;
}.

(** ** The service *)

Record Pacer := mkPacer {
  (** how often [pacer.Call] runs a closure again after its first run *)
  pc_retries : nat;
}.

Record UploadService := mkUploadService {
  numWorkers : Z;
  concurrentFiles : Z;  (** capacity of the channel *)
  partSize : Z;
  encryptFiles : bool;
  randomisePart : bool;
  channelID : Z;
  deleteAfterUpload : bool;
  pacer : Pacer;
}.

Definition NewUploadService (numWorkers numTransfers partSize : Z)
    (encryptFiles randomisePart : bool) (channelID : Z)
    (deleteAfterUpload : bool) (pacer : Pacer) : UploadService :=
  {| numWorkers := numWorkers;
     concurrentFiles := numTransfers;
     partSize := partSize;
     encryptFiles := encryptFiles;
     randomisePart := randomisePart;
     channelID := channelID;
     deleteAfterUpload := deleteAfterUpload;
     pacer := pacer |}.

Definition retryErrorCodes : list Z := [429; 500; 502; 503; 504; 509].

(** [fserrors.ContextError]: when the context is done, its error is
    reported (unless there is one already). *)
Definition ContextError (ctx err : option error) : bool * option error :=
  match ctx with
  | Some ce => (true, Some (default ce err))
  | None => (false, err)
  end.

Definition ShouldRetry (err : option error) : bool :=
  from_option err_retriable false err.

Definition ShouldRetryHTTP (resp : option Z) (codes : list Z) : bool :=
  match resp with
  | Some status => bool_decide (status ∈ codes)
  | None => false
  end.

Definition shouldRetry (ctx : option error) (resp : option Z) (err : option error)
    : bool * option error :=
  let '(cancelled, err) := ContextError ctx err in
  if cancelled then (false, err)
  else (ShouldRetry err || ShouldRetryHTTP resp retryErrorCodes, err).

(** [fserrors.RetryError]: the error the pacer reports for a call that
    asked for a retry. *)
Definition RetryError (err : option error) : error :=
  mkError (from_option err_msg "needs retry" err) true.

(** [pacer.Call(fn)] of the pacing library: [fn] runs, and runs again
    while it asks for a retry and the budget lasts; the error of a run
    that asks for a retry is reported as a [RetryError]. [St] is the
    state of the variables the closure captures, [i] numbers the
    invocations for the oracle; the result counts them. *)
Fixpoint pacer_Call {St : Type} (fn : nat → St → St * (bool * option error))
    (retries : nat) (i : nat) (s : St) : nat * St * option error :=
  let '(s', (retry, err)) := fn i s in
  let err := if retry then Some (RetryError err) else err in
  match retries with
  | O => (1%nat, s', err)
  | S r =>
      if retry then
        let '(n, s'', err') := pacer_Call fn r (S i) s' in (S n, s'', err')
      else (1%nat, s', err)
  end.

(** [resp, err = u.http.CallJSON(ctx, &opts, nil, &dst)]. *)
Definition CallJSON {A : Type} (r : call_result A) (dst : A)
    : option Z * option error * A :=
  match r with
  | CallErr resp e => (resp, Some e, dst)
  | CallOk status body => (Some status, None, body)
  end.

(** The closure every paced call site passes: [CallJSON], then
    [shouldRetry]. The captured variables are [resp] and the
    destination. *)
Definition pacedJSON {A : Type} (oracle : nat → attempt A)
    (i : nat) (s : option Z * A) : (option Z * A) * (bool * option error) :=
  let a := oracle i in
  let '(resp, err, dst) := CallJSON (att_res a) (snd s) in
  ((resp, dst), shouldRetry (att_ctx a) resp err).

Definition pacedCall {A : Type} (u : UploadService) (oracle : nat → attempt A)
    (req : request) (dst : A) : list event * (option Z * A) * option error :=
  let '(n, s, err) := pacer_Call (pacedJSON oracle) (pc_retries (pacer u)) 0%nat (None, dst) in
  (replicate n (EvHTTP req), s, err).

(** [checkFileExists] (lines 79-108). *)
Definition checkFileExists (u : UploadService) (env : Env) (fileName path : string)
    : list event * (bool * option error) :=
  let '(t, (resp, info), err) :=
    pacedCall u (env_find env) (GetFind fileName path) (mkReadMetadataResponse []) in
  let t := EvLog Debug "checking file exists" :: t in
  match err with
  | Some e => (t, (false, Some e))
  | None =>
      match resp with
      | Some status =>
          if bool_decide (status ≠ 404) && bool_decide (0 < length (md_Files info))%nat
          then (t, (true, None)) else (t, (false, None))
      | None => (t, (false, None))
      end
  end.

(** ** Paths and session names *)

Definition isSep (c : ascii) : bool := bool_decide (c = "/"%char).

Fixpoint dropSeps (l : list ascii) : list ascii :=
  match l with
  | c :: l' => if isSep c then dropSeps l' else l
  | [] => []
  end.

Fixpoint takeElement (l : list ascii) : list ascii :=
  match l with
  | c :: l' => if isSep c then [] else c :: takeElement l'
  | [] => []
  end.

(** [filepath.Base] for slash-separated paths. *)
Definition filepath_Base (path : string) : string :=
  if bool_decide (path = "") then "."
  else
    let stripped := dropSeps (reverse (String.list_ascii_of_string path)) in
    let last := reverse (takeElement stripped) in
    if bool_decide (last = []) then "/" else String.string_of_list_ascii last.

(** [fmt.Sprintf("%s:%s:%d", fileName, destDir, fileSize)] and the session
    it names. *)
Definition sessionInput (fileName destDir : string) (fileSize : Z) : string :=
  fileName +:+ ":" +:+ destDir +:+ ":" +:+ pretty fileSize.

Definition sessionOf (fileName destDir : string) (fileSize : Z) : digest :=
  md5_Sum (sessionInput fileName destDir fileSize).

(** ** [UploadFile] (lines 110-355) *)

(** [file.Read(buffer)] on a freshly opened file, [buffer] of [n > 0]
    bytes: the count and the error; at end of file Go answers
    [0, io.EOF]. *)
Definition file_Read (f : LocalFile) (n : Z) : Z * option error :=
  match lf_read f with
  | Some e => (0, Some e)
  | None => if bool_decide (lf_size f = 0) then (0, Some io_EOF)
            else (Z.min n (lf_size f), None)
  end.

(** [existingParts[part.PartNo] = part] for each part of the answer, in
    order (lines 184-187). *)
Definition indexParts (parts : list PartFile) : gmap Z PartFile :=
  foldl (λ m part, <[pf_PartNo part := part]> m) ∅ parts.

(** Lines 170-189: the session lookup, made only when the file is larger
    than one part. The result is [uploadFile] and [existingParts] (the nil
    map reads as the empty one). *)
Definition lookupSession (u : UploadService) (env : Env) (session : digest)
    (fileSize : Z) : list event * UploadFileInfo * gmap Z PartFile :=
  if bool_decide (partSize u < fileSize) then
    let '(t, (_, uploadFile), err) :=
      pacedCall u (env_session env) (GetSession session) (mkUploadFileInfo []) in
    match err with
    | None => (t, uploadFile, indexParts (uf_Parts uploadFile))
    | Some _ => (t, uploadFile, ∅)
    end
  else ([], mkUploadFileInfo [], ∅).

(** The variables of [UploadFile] that are live when the parts are
    dispatched (line 219). *)
Record Locals := mkLocals {
  L_fileName : string;
  L_fileSize : Z;
  L_mimeType : string;
  L_session : digest;
  L_uploadFile : UploadFileInfo;
  L_existingParts : gmap Z PartFile;
  L_totalParts : Z;
  L_channelID : Z;
  L_encryptFile : bool;
}.

(** Lines 201-209. *)
Definition inheritSettings (u : UploadService) (uploadFile : UploadFileInfo) : Z * bool :=
  match uf_Parts uploadFile with
  | part0 :: _ => (pf_ChannelID part0, pf_Encrypted part0)
  | [] => (channelID u, encryptFiles u)
  end.

(** Lines 111-209, and the first send of line 227 when the worker channel
    has no capacity: everything before the first worker starts.
    [file.Stat] on the open file is taken to succeed, and [make] to fail
    only on a negative capacity (the memory a channel needs is not
    modelled). Deferred calls also run when the function panics. *)
Definition prepare (u : UploadService) (env : Env) (filePath destDir : string)
    : list event * (outcome + Locals) :=
  let f := env_file env in
  match lf_open f with
  | Some e => ([EvLog Fatal "open file failed"], inl (Returned (Some e)))
  | None =>
  match file_Read f 512 with
  | (_, Some e) => ([EvLog Fatal "read file failed"], inl (Returned (Some e)))
  | (_, None) =>
  let mimeType := lf_mime f in
  let fileSize := lf_size f in
  let fileName := filepath_Base filePath in
  let '(t_exists, (exists_, err)) := checkFileExists u env fileName destDir in
  let t := EvAddBar fileSize :: t_exists in
  match err with
  | Some e =>
      (t ++ [EvBarAbort; EvLog Error "check file exists failed"; EvBarClose],
       inl (Returned (Some e)))
  | None =>
  if exists_ then
    (t ++ [EvAddExisting fileSize; EvLog Info "file exists"; EvBarClose],
     inl (Returned None))
  else
  let session := sessionOf fileName destDir fileSize in
  let '(t_session, uploadFile, existingParts) := lookupSession u env session fileSize in
  let t := t ++ t_session in
  if bool_decide (partSize u = 0) then
    (t ++ [EvBarClose], inl (Panicked "integer divide by zero"))
  else
  let total := totalParts fileSize (partSize u) in
  if bool_decide (total < 0) || bool_decide (numWorkers u < 0) then
    (t ++ [EvBarClose], inl (Panicked "makechan: size out of range"))
  else
  let '(channelID, encryptFile) := inheritSettings u uploadFile in
  if bool_decide (0 < total) && bool_decide (numWorkers u = 0) then
    (t, inl Blocked)
  else
    (t, inr {| L_fileName := fileName; L_fileSize := fileSize;
               L_mimeType := mimeType; L_session := session;
               L_uploadFile := uploadFile; L_existingParts := existingParts;
               L_totalParts := total; L_channelID := channelID;
               L_encryptFile := encryptFile |})
  end end end.

(** The goroutine of one part (lines 229-291): its events and what it
    sends on [uploadedParts], if anything. *)
Definition partWorker (env : Env) (L : Locals) (partNumber start end_ : Z)
    : list event * option PartFile :=
  let w := env_part env partNumber in
  match pw_open w with
  | Some _ => ([EvLog Error "open file failed"], None)
  | None =>
  match L_existingParts L !! Int64.add partNumber 1 with
  | Some existing => ([EvBarIncr (pf_Size existing)], Some existing)
  | None =>
  match pw_seek w with
  | Some _ => ([EvLog Error "seek file failed"], None)
  | None =>
  let contentLength := Int64.sub end_ start in
  let post := EvHTTP (PostPart (L_session L) (L_fileName L) (Int64.add partNumber 1)
                        (L_channelID L) (L_encryptFile L) start contentLength) in
  match pw_call w with
  | CallErr _ _ => ([post; EvLog Error "send part file failed"], None)
  | CallOk status partFile =>
      if bool_decide (status = 201)
      then ([post; EvLog Debug "part file sent"], Some partFile)
      else ([post], None)
  end end end end.

(** The order in which pending workers finish: each pick names one of
    those still pending (modulo their number); when the picks run out
    the rest finish in dispatch order. *)
Fixpoint schedule {A : Type} (picks : list nat) (pending : list A) : list A :=
  match picks, pending with
  | _, [] => []
  | [], _ => pending
  | k :: picks', x :: _ =>
      let j := (k `mod` length pending)%nat in
      default x (pending !! j) :: schedule picks' (delete j pending)
  end.

(** Lines 211-292: one worker per planned part; the result is what
    arrives on [uploadedParts] until it is closed. A worker's events are
    kept together, in the order the workers finish, and [bar.Finish] of
    the closing goroutine follows the last of them. The channel holds
    [totalParts] records and a worker sends at most one, so no send
    blocks. *)
Definition partWorkers (u : UploadService) (env : Env) (L : Locals)
    : list (list event * option PartFile) :=
  (λ p : Z * (Z * Z), partWorker env L p.1 p.2.1 p.2.2)
    <$> plannedParts (L_fileSize L) (partSize u).

Definition dispatchParts (u : UploadService) (env : Env) (L : Locals)
    : list event * list PartFile :=
  let finished := schedule (env_picks env) (partWorkers u env L) in
  ((finished ≫= fst) ++ [EvBarFinish], omap snd finished).

(** Lines 294-299. *)
Definition manifestParts (uploadedParts : list PartFile) : list FilePart :=
  (λ uploadPart, mkFilePart (pf_PartId uploadPart) (pf_PartNo uploadPart) (pf_Salt uploadPart))
    <$> filter (λ uploadPart, pf_PartId uploadPart ≠ 0 ∧ pf_Size uploadPart ≠ 0) uploadedParts.

(** [sort.Slice(x, less)] as an insertion sort; Go leaves the order of
    elements that [less] does not separate unspecified. *)
Fixpoint sort_insert {A : Type} (less : A → A → bool) (x : A) (l : list A) : list A :=
  match l with
  | [] => [x]
  | y :: l' => if less x y then x :: l else y :: sort_insert less x l'
  end.

Definition sort_Slice {A : Type} (less : A → A → bool) (l : list A) : list A :=
  foldr (sort_insert less) [] l.

(** The comparison [func(i, j int) bool { return x[i].key < x[j].key }]. *)
Definition lessBy {A : Type} (key : A → Z) (a b : A) : bool :=
  bool_decide (key a < key b).

(** Lines 308-310. *)
Definition lessPartNo : FilePart → FilePart → bool := lessBy fp_PartNo.

(** Lines 312-321. *)
Definition filePayload (L : Locals) (destDir : string) (parts : list FilePart) : FilePayload :=
  {| py_Name := L_fileName L; py_Type := "file"; py_Parts := parts;
     py_MimeType := L_mimeType L; py_Path := destDir; py_Size := L_fileSize L;
     py_ChannelID := L_channelID L; py_Encrypted := L_encryptFile L |}.

(** Lines 294-355: the completeness check, the commit and the clean-up.
    ([json.Marshal] of the payload cannot fail and has no effect.) *)
Definition finish (u : UploadService) (env : Env) (L : Locals) (destDir : string)
    (uploadedParts : list PartFile) : list event * outcome :=
  let parts := manifestParts uploadedParts in
  if bool_decide (Z.of_nat (length parts) ≠ L_totalParts L) then
    ([EvBarAbort; EvLog Error "uploaded parts incomplete"; EvBarClose],
     Returned (Some errIncomplete))
  else
    let parts := sort_Slice lessPartNo parts in
    let '(t_commit, _, err) :=
      pacedCall u (env_commit env) (PostFiles (filePayload L destDir parts)) () in
    match err with
    | Some e => (t_commit ++ [EvBarClose], Returned (Some e))
    | None =>
        let '(t_delete, _, err) :=
          pacedCall u (env_delete env) (DeleteSession (L_session L)) () in
        match err with
        | Some e => (t_commit ++ t_delete ++ [EvBarClose], Returned (Some e))
        | None =>
            (t_commit ++ t_delete ++ [EvLog Info "file sent"; EvBarClose],
             Returned None)
        end
    end.

Definition UploadFile (u : UploadService) (env : Env) (filePath destDir : string)
    : list event * outcome :=
  let '(t, r) := prepare u env filePath destDir in
  match r with
  | inl out => (t, out)
  | inr L =>
      let '(t_parts, uploadedParts) := dispatchParts u env L in
      let '(t_finish, out) := finish u env L destDir uploadedParts in
      (t ++ t_parts ++ t_finish, out)
  end.

(** ** Projections of a run *)

Definition requests (t : list event) : list request :=
  omap (λ e, match e with EvHTTP r => Some r | _ => None end) t.

Definition is_PostFiles (r : request) : bool :=
  match r with PostFiles _ => true | _ => false end.

Definition is_PostPart (r : request) : bool :=
  match r with PostPart _ _ _ _ _ _ _ => true | _ => false end.

(** The manifests a run has posted. *)
Definition committed (t : list event) : list FilePayload :=
  omap (λ r, match r with PostFiles payload => Some payload | _ => None end) (requests t).

(** The part numbers a run has posted a body for. *)
Definition postedParts (t : list event) : list Z :=
  omap (λ r, match r with PostPart _ _ partNo _ _ _ _ => Some partNo | _ => None end)
       (requests t).

(** ** The counters of [pb.Progress] (lines 21-31 and 90-101 of the
    progress file)

    [existingBytes] is a [float64] there; the sums are exact up to
    [2 ^ 53] and are taken in [Z] here. *)
Record progressState := mkProgressState {
  existing : Z;
  existingBytes : Z;
  totalTransfers : Z;
  totalSize : Z;
}.

Definition AddTransfer (totalFiles totalSize' : Z) (p : progressState) : progressState :=
  {| existing := existing p; existingBytes := existingBytes p;
     totalTransfers := Int64.add (totalTransfers p) totalFiles;
     totalSize := Int64.add (totalSize p) totalSize' |}.

Definition AddExisting (size : Z) (p : progressState) : progressState :=
  {| existing := Int64.add (existing p) 1; existingBytes := existingBytes p + size;
     totalTransfers := totalTransfers p; totalSize := totalSize p |}.

(** The effect of a run's events on the counters. *)
Definition progressAfter (t : list event) (p : progressState) : progressState :=
  foldl (λ p e, match e with EvAddExisting size => AddExisting size p | _ => p end) p t.

(** ** The two worker pools

    [u.concurrentFiles] is made once, in [NewUploadService] (line 58);
    [concurrentWorkers] is made by each call of [UploadFile] (line 199).
    Both are buffered channels of [struct{}] used as counting
    semaphores. The system below interleaves the calls of [UploadFile]
    that [UploadFilesInDirectory] starts (lines 506-515) and their
    workers (lines 226-233). *)
Module Pool.

Record chan := mkChan { ch_cap : Z; ch_len : Z }.

Definition make (cap : Z) : chan := mkChan cap 0.

(** A send succeeds when there is room, and blocks ([None]) otherwise. *)
Definition send (c : chan) : option chan :=
  if bool_decide (ch_len c < ch_cap c) then Some (mkChan (ch_cap c) (ch_len c + 1))
  else None.

Definition recv (c : chan) : option chan :=
  if bool_decide (0 < ch_len c) then Some (mkChan (ch_cap c) (ch_len c - 1))
  else None.

(** A call of [UploadFile] in flight: its own [concurrentWorkers], the
    loop variable [i] and [totalParts]. *)
Record fileRun := mkFileRun {
  concurrentWorkers : chan;
  fr_i : Z;
  fr_totalParts : Z;
}.

Record system := mkSystem {
  sys_concurrentFiles : chan;
  sys_runs : list fileRun;
}.

Inductive action :=
| StartFile (total : Z)  (** lines 507-515, 199 *)
| StartPart (k : nat)    (** lines 219-229, in the [k]-th run *)
| EndPart (k : nat)      (** lines 231-233 *)
| EndFile (k : nat).     (** the run returns; lines 511-513 *)

Definition init (u : UploadService) : system :=
  mkSystem (make (concurrentFiles u)) [].

Definition step (u : UploadService) (a : action) (s : system) : option system :=
  match a with
  | StartFile total =>
      files ← send (sys_concurrentFiles s);
      Some (mkSystem files (sys_runs s ++ [mkFileRun (make (numWorkers u)) 0 total]))
  | StartPart k =>
      r ← sys_runs s !! k;
      guard (fr_i r < fr_totalParts r);;
      workers ← send (concurrentWorkers r);
      Some (mkSystem (sys_concurrentFiles s)
              (<[k := mkFileRun workers (fr_i r + 1) (fr_totalParts r)]> (sys_runs s)))
  | EndPart k =>
      r ← sys_runs s !! k;
      workers ← recv (concurrentWorkers r);
      Some (mkSystem (sys_concurrentFiles s)
              (<[k := mkFileRun workers (fr_i r) (fr_totalParts r)]> (sys_runs s)))
  | EndFile k =>
      r ← sys_runs s !! k;
      guard (fr_i r = fr_totalParts r ∧ ch_len (concurrentWorkers r) = 0);;
      files ← recv (sys_concurrentFiles s);
      Some (mkSystem files (delete k (sys_runs s)))
  end.

Fixpoint run (u : UploadService) (acts : list action) (s : system) : option system :=
  match acts with
  | [] => Some s
  | a :: acts' => s' ← step u a s; run u acts' s'
  end.

(** Workers holding a slot of their run's pool: the part transfers in
    flight, over all runs. *)
Definition inflight (s : system) : Z :=
  foldr (λ r n, ch_len (concurrentWorkers r) + n) 0 (sys_runs s).

End Pool.

(** ** Notions the properties are stated with *)

(** Every run has a pool of its own, of the configured size; the file
    pool counts the runs. *)
Definition pool_inv (u : UploadService) (s : Pool.system) : Prop :=
  Pool.ch_cap (Pool.sys_concurrentFiles s) = concurrentFiles u
  ∧ Pool.ch_len (Pool.sys_concurrentFiles s) = Z.of_nat (length (Pool.sys_runs s))
  ∧ Pool.ch_len (Pool.sys_concurrentFiles s) ≤ Z.max 0 (concurrentFiles u)
  ∧ Forall (λ r, Pool.ch_cap (Pool.concurrentWorkers r) = numWorkers u
                 ∧ 0 ≤ Pool.ch_len (Pool.concurrentWorkers r) ≤ numWorkers u)
           (Pool.sys_runs s).

(** The least [n] with [a ≤ n * b], for [0 < b]. *)
Definition ceilDiv (a b : Z) : Z := (a + b - 1) `div` b.

Definition ascending {A : Type} (key : A → Z) (l : list A) : Prop :=
  StronglySorted (λ a b, key a ≤ key b) l.

(** ** Sample services and worlds *)

Definition answer {A : Type} (status : Z) (body : A) : attempt A :=
  mkAttempt None (CallOk status body).

Definition notFound {A : Type} : attempt A :=
  mkAttempt None (CallErr (Some 404) (mkError "404 Not Found" false)).

Definition samplePart (partNo : Z) : PartFile :=
  mkPartFile "f.bin.part" (100 + partNo) partNo 1000 9 true "salt".

Definition sampleService : UploadService :=
  NewUploadService 4 2 1000 false false 7 false (mkPacer 2).

(** A file of 2500 bytes, unknown to the remote side; every part is
    acknowledged with 201; the third worker finishes first. *)
Definition freshWorld : Env :=
  {| env_file := mkLocalFile None None 2500 "application/octet-stream";
     env_find := λ _, answer 200 (mkReadMetadataResponse []);
     env_session := λ _, notFound;
     env_part := λ i, mkPartWorld None None (CallOk 201 (samplePart (i + 1)));
     env_commit := λ _, answer 201 ();
     env_delete := λ _, answer 204 ();
     env_picks := [2; 0]%nat |}.

(** The same file with a session that already holds parts 2 and 1. *)
Definition resumedWorld : Env :=
  {| env_file := env_file freshWorld;
     env_find := env_find freshWorld;
     env_session := λ _, answer 200 (mkUploadFileInfo [samplePart 2; samplePart 1]);
     env_part := λ i, mkPartWorld None None
                        (CallOk 201 (mkPartFile "f.bin.part" 203 3 500 9 true "salt"));
     env_commit := env_commit freshWorld;
     env_delete := env_delete freshWorld;
     env_picks := [1; 1]%nat |}.


(** The file is already there. *)
Definition existsWorld : Env :=
  {| env_file := env_file freshWorld;
     env_find := λ _, answer 200 (mkReadMetadataResponse [mkFileInfo "f.bin"]);
     env_session := env_session freshWorld;
     env_part := env_part freshWorld;
     env_commit := env_commit freshWorld;
     env_delete := env_delete freshWorld;
     env_picks := [] |}.

(** The second part is answered with 500, the others with 201. *)
Definition droppedWorld : Env :=
  {| env_file := env_file freshWorld;
     env_find := env_find freshWorld;
     env_session := env_session freshWorld;
     env_part := λ i, mkPartWorld None None
                        (if bool_decide (i = 1)
                         then CallErr (Some 500) (mkError "500 Internal Server Error" true)
                         else CallOk 201 (samplePart (i + 1)));
     env_commit := env_commit freshWorld;
     env_delete := env_delete freshWorld;
     env_picks := [] |}.

(** The second part is acknowledged with 201 but without a part id. *)
Definition noIdWorld : Env :=
  {| env_file := env_file freshWorld;
     env_find := env_find freshWorld;
     env_session := env_session freshWorld;
     env_part := λ i, mkPartWorld None None
                        (CallOk 201 (if bool_decide (i = 1)
                                     then mkPartFile "f.bin.part" 0 2 1000 9 true "salt"
                                     else samplePart (i + 1)));
     env_commit := env_commit freshWorld;
     env_delete := env_delete freshWorld;
     env_picks := [] |}.


(** The file is already there, and the first existence check is
    answered with 503. *)
Definition flakyWorld : Env :=
  {| env_file := env_file freshWorld;
     env_find := λ i, match i with
                      | O => mkAttempt None
                               (CallErr (Some 503) (mkError "503 Service Unavailable" false))
                      | S _ => answer 200 (mkReadMetadataResponse [mkFileInfo "f.bin"])
                      end;
     env_session := env_session freshWorld;
     env_part := env_part freshWorld;
     env_commit := env_commit freshWorld;
     env_delete := env_delete freshWorld;
     env_picks := [] |}.

(** As [resumedWorld], but the context is done when the session answer
    has been decoded, and stays so for the commit; the part uploads,
    made under [context.TODO()], are acknowledged with 201. *)
Definition cancelledLookupWorld : Env :=
  {| env_file := env_file freshWorld;
     env_find := env_find freshWorld;
     env_session := λ _, mkAttempt (Some (mkError "context canceled" false))
                           (CallOk 200 (mkUploadFileInfo [samplePart 2; samplePart 1]));
     env_part := env_part freshWorld;
     env_commit := λ _, mkAttempt (Some (mkError "context canceled" false))
                          (CallErr None (mkError "context canceled" false));
     env_delete := env_delete freshWorld;
     env_picks := [] |}.

(** ** The local directory tree *)

(** What [os.ReadDir] and [os.Stat] answer below a directory: a file
    entry with the result of [os.Stat] on it (an error or its size), a
    directory entry with the result of [os.ReadDir] on it (an error, or
    its entries). *)
#[local] Unset Elimination Schemes.
Inductive fsEntry :=
| FsFile (name : string) (stat : error + Z)
| FsDir (name : string) (readErr : option error) (entries : list fsEntry).
#[local] Set Elimination Schemes.

Definition entryName (entry : fsEntry) : string :=
  match entry with
  | FsFile name _ => name
  | FsDir name _ _ => name
  end.

(** The error of [os.ReadDir] on something that is not a directory. *)
Definition ENOTDIR : error := mkError "not a directory" false.

Module services.
(** [type FileInfo struct] of the services package (lines 576-579). *)
Record FileInfo := mkFileInfo {
  TotalFiles : Z;
  TotalSize : Z;
}.
End services.

(** The loop of [GetFilesInDirectoryInfo] (lines 553-571) over the
    entries that are left, with [info] as it stands; [recurse] is the
    function itself. *)
Definition infoEntries (recurse : fsEntry → services.FileInfo * option error)
    : list fsEntry → services.FileInfo → services.FileInfo * option error :=
  fix loop (entries : list fsEntry) (info : services.FileInfo) :=
    match entries with
    | [] => (info, None)
    | (FsDir _ _ _ as sub) :: rest =>
        match recurse sub with
        | (_, Some err) => (services.mkFileInfo 0 0, Some err)
        | (subInfo, None) =>
            loop rest
              (services.mkFileInfo
                 (Int64.add (services.TotalFiles info) (services.TotalFiles subInfo))
                 (Int64.add (services.TotalSize info) (services.TotalSize subInfo)))
        end
    | FsFile _ stat :: rest =>
        let files := Int64.add (services.TotalFiles info) 1 in
        match stat with
        | inr size =>
            loop rest (services.mkFileInfo files (Int64.add (services.TotalSize info) size))
        | inl _ => loop rest (services.mkFileInfo files (services.TotalSize info))
        end
    end.

(** [GetFilesInDirectoryInfo] (lines 545-574), on the tree found at
    [sourcePath]. *)
Fixpoint GetFilesInDirectoryInfo (dir : fsEntry) : services.FileInfo * option error :=
  match dir with
  | FsFile _ _ => (services.mkFileInfo 0 0, Some ENOTDIR)
  | FsDir _ (Some err) _ => (services.mkFileInfo 0 0, Some err)
  | FsDir _ None entries =>
      infoEntries GetFilesInDirectoryInfo entries (services.mkFileInfo 0 0)
  end.

(** The tree in numbers: whether every directory can be read, how many
    files there are, and how many bytes [os.Stat] reports for them. *)
Fixpoint readable (entry : fsEntry) : Prop :=
  match entry with
  | FsFile _ _ => True
  | FsDir _ readErr entries =>
      readErr = None ∧ foldr (λ entry rest, readable entry ∧ rest) True entries
  end.

Fixpoint fileCount (entry : fsEntry) : Z :=
  match entry with
  | FsFile _ _ => 1
  | FsDir _ _ entries => foldr (λ entry n, fileCount entry + n) 0 entries
  end.

Fixpoint byteCount (entry : fsEntry) : Z :=
  match entry with
  | FsFile _ (inr size) => size
  | FsFile _ (inl _) => 0
  | FsDir _ _ entries => foldr (λ entry n, byteCount entry + n) 0 entries
  end.

(** [checkFileExistsInDirectory] (lines 463-470). *)
Fixpoint checkFileExistsInDirectory (name : string) (files : list FileInfo) : bool :=
  match files with
  | [] => false
  | item :: files' =>
      if bool_decide (fi_Name item = name) then true
      else checkFileExistsInDirectory name files'
  end.

(** A sample tree: two files, one of which cannot be examined, and a
    directory with one file. *)
Definition sampleTree : fsEntry :=
  FsDir "in" None
    [FsFile "a.bin" (inr 2500);
     FsFile "b.bin" (inl (mkError "permission denied" false));
     FsDir "sub" None [FsFile "c.bin" (inr 40)]].

(** ** Remote directories: [CreateRemoteDir], [readMetaDataForPath],
    [list] *)

Inductive dirRequest :=
| GetList (path : string) (limit page : Z)
| PostDirectories (path : string).

(** What the walk does: log entries, requests, the counter of existing
    files, and the goroutines it starts for [UploadFile]. *)
Inductive walkEvent :=
| WLog (l : level) (msg : string)
| WHTTP (r : dirRequest)
| WAddExisting (size : Z)
| WSpawn (fullPath destDir : string).

(** [types.ReadMetadataResponse] as the listing reads it: the files of
    a page and [Meta.TotalPages]. *)
Record ListResponse := mkListResponse {
  lr_Files : list FileInfo;
  lr_TotalPages : Z;
}.

(** The remote side of a walk: the answers to the listing of a page of
    a directory and to the creation of a directory, attempt by attempt;
    the order in which the concurrent page requests of a listing
    finish; and [filepath.Join]. *)
Record WalkEnv := mkWalkEnv {
  we_list : string → Z → nat → attempt ListResponse;
  we_mkdir : string → nat → attempt unit;
  we_picks : string → list nat;
  we_Join : string → string → string;
}.

(** A paced call of the walk: as [pacedCall], for its requests. *)
Definition pacedDirCall {A : Type} (u : UploadService) (oracle : nat → attempt A)
    (req : dirRequest) (dst : A) : list walkEvent * (option Z * A) * option error :=
  let '(n, s, err) := pacer_Call (pacedJSON oracle) (pc_retries (pacer u)) 0%nat (None, dst) in
  (replicate n (WHTTP req), s, err).

(** Lines 362-364: [if len(path) == 0 || path[0] != '/' { path = "/" +
    path }]. *)
Definition rootedPath (path : string) : string :=
  match path with
  | String c _ => if bool_decide (c = "/"%char) then path else "/" +:+ path
  | EmptyString => "/" +:+ path
  end.

(** [CreateRemoteDir] (lines 356-379). *)
Definition CreateRemoteDir (u : UploadService) (wenv : WalkEnv) (path : string)
    : list walkEvent * option error :=
  let path := rootedPath path in
  let '(t, _, err) := pacedDirCall u (we_mkdir wenv path) (PostDirectories path) () in
  (t, err).

Definition ErrorDirNotFound : error := mkError "directory not found" false.

(** [readMetaDataForPath] (lines 381-412): the error, or the page. *)
Definition readMetaDataForPath (u : UploadService) (wenv : WalkEnv) (path : string)
    (limit page : Z) : list walkEvent * (error + ListResponse) :=
  let '(t, (resp, info), err) :=
    pacedDirCall u (we_list wenv path page) (GetList path limit page) (mkListResponse [] 0) in
  match err with
  | Some e =>
      match resp with
      | Some status =>
          if bool_decide (status = 404) then (t, inl ErrorDirNotFound) else (t, inl e)
      | None => (t, inl e)
      end
  | None => (t, inr info)
  end.

(** [g.Wait()]: the first error among the page requests, in the order
    they finish. *)
Fixpoint firstError {A : Type} (results : list (error + A)) : option error :=
  match results with
  | [] => None
  | inl err :: _ => Some err
  | inr _ :: rest => firstError rest
  end.

(** The files a page request adds to the listing. *)
Definition pageFiles (result : error + ListResponse) : list FileInfo :=
  match result with
  | inl _ => []
  | inr info => lr_Files info
  end.

(** [list] (lines 414-461). The pages after the first are requested
    concurrently and appended as they arrive; the requests of one page
    are kept together. The result is [None] when the loop over the
    pages cannot end (a page count of the largest [int]). *)
Definition listDir (u : UploadService) (wenv : WalkEnv) (path : string)
    : list walkEvent * option (error + list FileInfo) :=
  let pageSize := 500 in
  let '(t, first) := readMetaDataForPath u wenv path pageSize 1 in
  match first with
  | inl err => (t, Some (inl err))
  | inr info =>
      let files := lr_Files info in
      if bool_decide (1 < lr_TotalPages info) then
        if bool_decide (lr_TotalPages info = Int64.max_int) then (t, None)
        else
          let fetches :=
            readMetaDataForPath u wenv path pageSize <$> seqZ 2 (lr_TotalPages info - 1) in
          let finished := schedule (we_picks wenv path) fetches in
          let t := t ++ (finished ≫= fst) in
          match firstError (snd <$> finished) with
          | Some err => (t, Some (inl err))
          | None => (t, Some (inr (files ++ (finished ≫= λ fetch, pageFiles fetch.2))))
          end
      else (t, Some (inr files))
  end.

(** ** The walk: [UploadFilesInDirectory] *)

(** [strings.ReplaceAll(s, bs, "/")] for the backslash [bs]. *)
Definition backslash : ascii := ascii_of_nat 92.

Fixpoint toSlash (s : string) : string :=
  match s with
  | EmptyString => EmptyString
  | String c s' => String (if bool_decide (c = backslash) then "/"%char else c) (toSlash s')
  end.

(** How a walk ends: it returns, or it waits for ever (a send on the
    file channel that cannot be served, a listing that cannot end). *)
Inductive walkOutcome :=
| WReturned (err : option error)
| WBlocked.

(** What the loop over the entries does after an entry. *)
Inductive walkStep :=
| WalkOn
| WalkStop (out : walkOutcome).

(** The body of the loop of [UploadFilesInDirectory] for one entry
    (lines 488-539); [recurse] is the function itself. The uploads in
    flight are taken to return, so that the send on [u.concurrentFiles]
    is served whenever the channel has any room at all. *)
Definition walkEntry (u : UploadService) (wenv : WalkEnv)
    (recurse : fsEntry → string → string → list walkEvent * walkOutcome)
    (filesInRemote : list FileInfo) (sourcePath destDir : string) (entry : fsEntry)
    : list walkEvent * walkStep :=
  let fullPath := we_Join wenv sourcePath (entryName entry) in
  match entry with
  | FsDir name _ _ =>
      let subDir := toSlash (we_Join wenv destDir name) in
      let '(t_mkdir, err) := CreateRemoteDir u wenv subDir in
      match err with
      | Some _ => (t_mkdir ++ [WLog Error "create remote dir failed"], WalkOn)
      | None =>
          let '(t_sub, out) := recurse entry fullPath subDir in
          match out with
          | WBlocked => (t_mkdir ++ t_sub, WalkStop WBlocked)
          | WReturned (Some _) =>
              (t_mkdir ++ t_sub ++ [WLog Error "upload files in directory failed"], WalkOn)
          | WReturned None => (t_mkdir ++ t_sub, WalkOn)
          end
      end
  | FsFile name stat =>
      if checkFileExistsInDirectory name filesInRemote then
        match stat with
        | inl err =>
            ([WLog Error "stat for existing file failed"], WalkStop (WReturned (Some err)))
        | inr size =>
            ([WAddExisting size; WLog Info "file in directory exists"], WalkOn)
        end
      else if bool_decide (concurrentFiles u ≤ 0) then ([], WalkStop WBlocked)
      else ([WSpawn fullPath destDir], WalkOn)
  end.

(** The loop itself (lines 487-542). *)
Definition walkEntries (step : fsEntry → list walkEvent * walkStep)
    : list fsEntry → list walkEvent * walkOutcome :=
  fix loop (entries : list fsEntry) :=
    match entries with
    | [] => ([], WReturned None)
    | entry :: rest =>
        let '(t, next) := step entry in
        match next with
        | WalkStop out => (t, out)
        | WalkOn => let '(t', out) := loop rest in (t ++ t', out)
        end
    end.

(** [UploadFilesInDirectory] (lines 472-543), on the tree found at
    [sourcePath]. *)
Fixpoint UploadFilesInDirectory (u : UploadService) (wenv : WalkEnv) (dir : fsEntry)
    (sourcePath destDir : string) : list walkEvent * walkOutcome :=
  match dir with
  | FsFile _ _ => ([WLog Error "read file failed"], WReturned (Some ENOTDIR))
  | FsDir _ (Some err) _ => ([WLog Error "read file failed"], WReturned (Some err))
  | FsDir _ None entries =>
      let destDir := toSlash destDir in
      let '(t_list, listed) := listDir u wenv destDir in
      match listed with
      | None => (t_list, WBlocked)
      | Some (inl err) =>
          (t_list ++ [WLog Error "list remote files failed"], WReturned (Some err))
      | Some (inr filesInRemote) =>
          let '(t, out) :=
            walkEntries
              (walkEntry u wenv (UploadFilesInDirectory u wenv) filesInRemote
                 sourcePath destDir)
              entries in
          (t_list ++ t, out)
      end
  end.

(** ** Rendering: [clearAndWriteProgress] (lines 233-250 of the progress
    file) *)

Definition escape : ascii := ascii_of_nat 27.
Definition newline : ascii := ascii_of_nat 10.

(** The VT100 codes of [vt100.go] that the renderer writes. *)
Definition EraseLine : string := String escape "[2K".
Definition MoveToStartOfLine : string := String escape "[1G".
Definition MoveUp : string := String escape "[1A".

(** [strings.Split(s, sep)] for the separator of one newline. *)
Fixpoint splitLines (s : string) : list string :=
  match s with
  | EmptyString => [EmptyString]
  | String c s' =>
      if bool_decide (c = newline) then EmptyString :: splitLines s'
      else match splitLines s' with
           | line :: lines => String c line :: lines
           | [] => [String c EmptyString]
           end
  end.

(** The second loop: every line, and a newline after each but the
    last. *)
Fixpoint writeLines (lines : list string) : list string :=
  match lines with
  | [] => []
  | [line] => [line]
  | line :: rest => line :: String newline EmptyString :: writeLines rest
  end.

(** [clearAndWriteProgress]: the strings handed to [writeString], in
    order, and the new value of the package variable [nlines], given
    its old one. *)
Definition clearAndWriteProgress (nlines : Z) (strProgressStats strProgressBars : string)
    : list string * Z :=
  let clears := mjoin (replicate (Z.to_nat (nlines - 1)) [EraseLine; MoveUp]) in
  let fixedLines := splitLines (strProgressStats +:+ strProgressBars) in
  (clears ++ [EraseLine; MoveToStartOfLine] ++ writeLines fixedLines,
   Z.of_nat (length fixedLines)).

(** What a terminal receives: the strings written, one after the other. *)
Definition written (out : list string) : string := foldr String.append EmptyString out.

(** The newlines of a text. *)
Fixpoint countNewlines (s : string) : Z :=
  match s with
  | EmptyString => 0
  | String c s' => (if bool_decide (c = newline) then 1 else 0) + countNewlines s'
  end.

(** ** Further notions: the attempts of a paced call *)

(** What [CallJSON] leaves in [resp] and [err] for an attempt. *)
Definition attemptResp {A : Type} (a : attempt A) : option Z :=
  match att_res a with
  | CallErr resp _ => resp
  | CallOk status _ => Some status
  end.

Definition attemptErr {A : Type} (a : attempt A) : option error :=
  match att_res a with
  | CallErr _ e => Some e
  | CallOk _ _ => None
  end.

(** The answer of [shouldRetry] to an attempt. *)
Definition attemptVerdict {A : Type} (a : attempt A) : bool * option error :=
  shouldRetry (att_ctx a) (attemptResp a) (attemptErr a).

(** The outcomes after which a call is worth repeating: the context is
    alive, and the error is one [fserrors.ShouldRetry] accepts or the
    status is one of [retryErrorCodes]. *)
Definition retryable {A : Type} (a : attempt A) : Prop :=
  att_ctx a = None
  ∧ ((∃ e, attemptErr a = Some e ∧ err_retriable e = true)
     ∨ (∃ status, attemptResp a = Some status ∧ status ∈ retryErrorCodes)).

(** The context is done when the first answer arrives. *)
Definition cancelledFind : nat → attempt ReadMetadataResponse :=
  λ _, mkAttempt (Some (mkError "context canceled" false))
         (CallErr None (mkError "connection reset" true)).

(** Projections of a walk: the uploads it starts and the sizes it counts
    as existing. *)
Definition spawned (t : list walkEvent) : list (string * string) :=
  omap (λ e, match e with WSpawn fullPath destDir => Some (fullPath, destDir) | _ => None end) t.

Definition countedExisting (t : list walkEvent) : list Z :=
  omap (λ e, match e with WAddExisting size => Some size | _ => None end) t.

Definition noBackslash (s : string) : Prop :=
  backslash ∉ String.list_ascii_of_string s.

(** The remote paths of an event are free of backslashes. *)
Definition slashedEvent (e : walkEvent) : Prop :=
  match e with
  | WHTTP (GetList path _ _) => noBackslash path
  | WHTTP (PostDirectories path) => noBackslash path ∧ ∃ rest, path = String "/" rest
  | WSpawn _ destDir => noBackslash destDir
  | _ => True
  end.

(** What the walk does with a file entry of a directory whose listing
    is [filesInRemote]. *)
Definition isNew (filesInRemote : list FileInfo) (entry : fsEntry) : Prop :=
  entryName entry ∉ fi_Name <$> filesInRemote.

(** ** The goroutine of a file (lines 509-529) *)

Inductive taskEvent :=
| TUpload (e : event)
| TLog (l : level) (msg : string)
| TRemove (path : string).

(** [removeErr] is the answer of [os.Remove]. A call of [UploadFile]
    that panics or blocks is not followed by anything. *)
Definition uploadTask (u : UploadService) (env : Env) (removeErr : option error)
    (fullPath destDir : string) : list taskEvent :=
  let '(t, out) := UploadFile u env fullPath destDir in
  (TUpload <$> t)
  ++ match out with
     | Returned (Some _) => [TLog Error "upload failed"]
     | Returned None =>
         if deleteAfterUpload u then
           match removeErr with
           | Some _ => [TRemove fullPath; TLog Error "delete file failed"]
           | None => [TRemove fullPath; TLog Info "deleted file"]
           end
         else []
     | _ => []
     end.

(** A remote side for [sampleTree]: the listing of [/dst] has one page
    with [a.bin]; the directory [/dst/sub] cannot be created. *)
Definition sampleWalkEnv : WalkEnv :=
  {| we_list := λ path page _,
       answer 200 (mkListResponse
                     (if bool_decide (path = "/dst") then [mkFileInfo "a.bin"] else []) 1);
     we_mkdir := λ path _,
       if bool_decide (path = "/dst/sub")
       then mkAttempt None (CallErr (Some 403) (mkError "403 Forbidden" false))
       else answer 201 ();
     we_picks := λ _, [];
     we_Join := λ dir name, dir +:+ "/" +:+ name |}.

(** The listing of [/big] has three pages; the third finishes before
    the second. *)
Definition pagedWalkEnv : WalkEnv :=
  {| we_list := λ path page _,
       answer 200 (mkListResponse [mkFileInfo ("file" +:+ pretty page)] 3);
     we_mkdir := λ _ _, answer 201 ();
     we_picks := λ _, [1%nat];
     we_Join := λ dir name, dir +:+ "/" +:+ name |}.

(** A service that removes what it has uploaded. *)
Definition movingService : UploadService :=
  NewUploadService 4 2 1000 false false 7 true (mkPacer 2).

#[global] Instance isNew_dec filesInRemote entry : Decision (isNew filesInRemote entry) :=
  ltac:(unfold isNew; apply _).

(** Further sample services and worlds. *)

(** The existence check is refused. *)
Definition refusedWorld : Env :=
  {| env_file := env_file freshWorld;
     env_find := λ _, mkAttempt None (CallErr (Some 403) (mkError "403 Forbidden" false));
     env_session := env_session freshWorld;
     env_part := env_part freshWorld;
     env_commit := env_commit freshWorld;
     env_delete := env_delete freshWorld;
     env_picks := [] |}.

(** A file of 500 bytes, less than a part. *)
Definition smallFileWorld : Env :=
  {| env_file := mkLocalFile None None 500 "text/plain";
     env_find := env_find freshWorld;
     env_session := env_session freshWorld;
     env_part := λ _, mkPartWorld None None
                        (CallOk 201 (mkPartFile "f.bin" 101 1 500 9 false "salt"));
     env_commit := env_commit freshWorld;
     env_delete := env_delete freshWorld;
     env_picks := [] |}.

(** A service with a part size of zero, and one without part workers. *)
Definition zeroPartService : UploadService :=
  NewUploadService 4 2 0 false false 7 false (mkPacer 2).

Definition idleService : UploadService :=
  NewUploadService 0 2 1000 false false 7 false (mkPacer 2).


Definition unreadableFileTree : fsEntry :=
  FsDir "in" None [FsFile "a.bin" (inl (mkError "permission denied" false));
                   FsFile "b.bin" (inr 40)].

(** * Properties *)

(** ** 64-bit arithmetic *)

Lemma pow63 : 2 ^ 63 = 9223372036854775808.
Proof. reflexivity. Qed.

Lemma pow64 : 2 ^ 64 = 18446744073709551616.
Proof. reflexivity. Qed.

Ltac int64_consts :=
  unfold Int64.in_range, Int64.wrap, Int64.min_int, Int64.max_int in *;
  rewrite ?pow63, ?pow64 in *.

Lemma Int64_wrap_in_range z : Int64.in_range (Int64.wrap z).
Proof.
  int64_consts.
  pose proof (Z.mod_pos_bound (z + 9223372036854775808) 18446744073709551616).
  lia.
Qed.

Lemma Int64_wrap_id z : Int64.in_range z → Int64.wrap z = z.
Proof. int64_consts. intros Hz. rewrite Z.mod_small; lia. Qed.

(** ** The part plan *)

Section plan.
Variables fileSize partSize : Z.
Hypothesis Hsize : 0 ≤ fileSize.
Hypothesis Hpart : 0 < partSize.
Hypothesis Hfit : fileSize + partSize ≤ Int64.max_int.

Lemma fit_range z : 0 ≤ z ≤ fileSize + partSize → Int64.in_range z.
Proof using Hfit. clear Hsize Hpart. int64_consts. lia. Qed.

Lemma totalParts_ceil : totalParts fileSize partSize = ceilDiv fileSize partSize.
Proof using Hsize Hpart Hfit.
  unfold totalParts, Int64.quot, Int64.rem, Int64.add, ceilDiv.
  rewrite Z.quot_div_nonneg, Z.rem_mod_nonneg by lia.
  pose proof (Z.div_mod fileSize partSize ltac:(lia)) as Hdm.
  pose proof (Z.mod_pos_bound fileSize partSize Hpart) as Hm.
  assert (0 ≤ fileSize `div` partSize ≤ fileSize) as Hq.
  { split; [apply Z.div_pos; lia|]. apply Z.div_le_upper_bound; nia. }
  rewrite (Int64_wrap_id (fileSize `div` partSize)) by (apply fit_range; lia).
  case_bool_decide as Hr.
  - rewrite Int64_wrap_id by (apply fit_range; nia).
    apply Z.div_unique with (r := fileSize `mod` partSize - 1); lia.
  - apply Z.div_unique with (r := partSize - 1); lia.
Qed.

Lemma ceilDiv_bounds :
  let n := ceilDiv fileSize partSize in
  0 ≤ n ∧ fileSize ≤ n * partSize ∧ (n - 1) * partSize < fileSize.
Proof using Hsize Hpart.
  clear Hfit. unfold ceilDiv. simpl.
  pose proof (Z.div_mod (fileSize + partSize - 1) partSize ltac:(lia)) as Hdm.
  pose proof (Z.mod_pos_bound (fileSize + partSize - 1) partSize Hpart) as Hm.
  assert (0 ≤ (fileSize + partSize - 1) `div` partSize) by (apply Z.div_pos; lia).
  nia.
Qed.

Lemma partRange_exact i :
  0 ≤ i < ceilDiv fileSize partSize →
  partRange fileSize partSize i = (i * partSize, Z.min ((i + 1) * partSize) fileSize).
Proof using Hsize Hpart Hfit.
  intros Hi. pose proof ceilDiv_bounds as (Hn0 & Hn1 & Hn2). simpl in *.
  assert (i * partSize < fileSize) as Hlt by nia.
  unfold partRange, Int64.mul, Int64.add.
  rewrite (Int64_wrap_id (i * partSize)) by (apply fit_range; nia).
  rewrite Int64_wrap_id by (apply fit_range; nia).
  case_bool_decide; f_equal; lia.
Qed.
End plan.

(** C2 (as amended). For a file size [0 ≤ fileSize] and a part size
    [0 < partSize] whose sum fits a signed 64-bit integer, the plan of
    [UploadFile] has [ceil(fileSize / partSize)] parts, part [i] covers
    the bytes from [i * partSize] up to [min ((i + 1) * partSize)
    fileSize], no part is empty, each part ends where the next begins,
    no byte lies in two parts, and the bytes covered are exactly those
    of [[0, fileSize)]. *)
Theorem plan_partition (fileSize partSize : Z) :
  0 ≤ fileSize → 0 < partSize → fileSize + partSize ≤ Int64.max_int →
  let n := ceilDiv fileSize partSize in
  let range i := (i * partSize, Z.min ((i + 1) * partSize) fileSize) in
  totalParts fileSize partSize = n
  ∧ fileSize ≤ n * partSize < fileSize + partSize
  ∧ plannedParts fileSize partSize = (λ i, (i, range i)) <$> seqZ 0 n
  ∧ (∀ i, 0 ≤ i < n → 0 ≤ (range i).1 < (range i).2 ∧ (range i).2 ≤ fileSize)
  ∧ (∀ i, 0 ≤ i → i + 1 < n → (range i).2 = (range (i + 1)).1)
  ∧ (∀ i j b, 0 ≤ i < n → 0 ≤ j < n →
       (range i).1 ≤ b < (range i).2 → (range j).1 ≤ b < (range j).2 → i = j)
  ∧ (∀ b, 0 ≤ b < fileSize ↔ ∃ i, 0 ≤ i < n ∧ (range i).1 ≤ b < (range i).2).
Proof.
  intros Hsize Hpart Hfit n range.
  pose proof (ceilDiv_bounds fileSize partSize Hsize Hpart) as (Hn0 & Hn1 & Hn2).
  fold n in Hn0, Hn1, Hn2. simpl in Hn0, Hn1, Hn2.
  split; [by apply totalParts_ceil|].
  split; [lia|].
  split.
  { unfold plannedParts. rewrite totalParts_ceil by done. fold n.
    apply Forall_fmap_ext_1, Forall_seqZ. intros i Hi.
    unfold range. rewrite partRange_exact; [done..|]. fold n. lia. }
  unfold range; simpl.
  split; [intros i Hi; nia|].
  split; [intros i Hi0 Hi1; nia|].
  split; [intros i j b Hi Hj Hbi Hbj; nia|].
  intros b. split.
  - intros Hb. exists (b `div` partSize).
    pose proof (Z.div_mod b partSize ltac:(lia)) as Hdm.
    pose proof (Z.mod_pos_bound b partSize Hpart) as Hm.
    assert (0 ≤ b `div` partSize) by (apply Z.div_pos; lia).
    nia.
  - intros (i & Hi & Hb). nia.
Qed.

(** The plan of the 2500-byte file in parts of 1000 bytes. *)
Lemma plan_partition_witness :
  0 ≤ 2500 ∧ 0 < 1000 ∧ 2500 + 1000 ≤ Int64.max_int
  ∧ totalParts 2500 1000 = 3
  ∧ plannedParts 2500 1000 = [(0, (0, 1000)); (1, (1000, 2000)); (2, (2000, 2500))].
Proof.
  assert (0 ≤ 2500) as Hsize by lia.
  assert (0 < 1000) as Hpart by lia.
  assert (2500 + 1000 ≤ Int64.max_int) as Hfit by (vm_compute; discriminate).
  destruct (plan_partition 2500 1000 Hsize Hpart Hfit) as (Hn & _ & Hplan & _).
  split; [exact Hsize|]. split; [exact Hpart|]. split; [exact Hfit|].
  split; [exact Hn | exact Hplan].
Defined.

(** C2 as stated fails at the top of the 64-bit range: with a file of
    [2^63 - 1] bytes and parts of [2^62 + 1] bytes two parts are
    planned, and the end of the second wraps around to a negative
    offset instead of being clamped to the file size. *)
Lemma plan_partition_overflow :
  let fileSize := 2 ^ 63 - 1 in
  let partSize := 2 ^ 62 + 1 in
  Int64.in_range fileSize ∧ Int64.in_range partSize ∧ 0 < partSize
  ∧ totalParts fileSize partSize = 2
  ∧ partRange fileSize partSize 1 = (2 ^ 62 + 1, - 2 ^ 63 + 2)
  ∧ partRange fileSize partSize 1 ≠ (1 * partSize, Z.min ((1 + 1) * partSize) fileSize).
Proof. vm_compute. repeat split; congruence. Qed.

(** ** The scheduler *)

Section schedule.
Context {A : Type}.
Implicit Types (l pending : list A) (picks : list nat).

Lemma schedule_Permutation picks pending : schedule picks pending ≡ₚ pending.
Proof.
  revert pending. induction picks as [|k picks IH]; intros [|x pending];
    cbn [schedule]; try done.
  set (l := x :: pending). set (j := (k `mod` length l)%nat).
  assert (j < length l)%nat as Hj.
  { apply Nat.mod_upper_bound. unfold l. simpl. lia. }
  destruct (lookup_lt_is_Some_2 l j Hj) as [y Hy].
  rewrite Hy. simpl. rewrite IH. symmetry. by apply delete_Permutation.
Qed.

(** Every order of completion is the effect of some picks. *)
Lemma schedule_complete pending order :
  pending ≡ₚ order → ∃ picks, schedule picks pending = order.
Proof.
  intros Hp. symmetry in Hp. revert pending Hp.
  induction order as [|y order IH]; intros pending Hp.
  - apply Permutation_nil_l in Hp. subst. by exists [].
  - assert (y ∈ pending) as Hy by (rewrite <-Hp; left).
    apply list_elem_of_lookup in Hy as [j Hj].
    pose proof (lookup_lt_Some _ _ _ Hj) as Hlt.
    destruct (IH (delete j pending)) as [picks Hpicks].
    { apply (Permutation_cons_inv (a:=y)). rewrite Hp. by apply delete_Permutation. }
    exists (j :: picks). destruct pending as [|x pending]; [simpl in Hlt; lia|].
    cbn [schedule]. rewrite Nat.mod_small by done. rewrite Hj. simpl. by rewrite Hpicks.
Qed.
End schedule.

(** ** [sort.Slice] *)

Section sorting.
Context {A : Type} (key : A → Z).

Lemma sort_insert_Permutation x l : sort_insert (lessBy key) x l ≡ₚ x :: l.
Proof.
  induction l as [|y l IH]; simpl; [done|].
  destruct (lessBy key x y); [done|]. rewrite IH. apply Permutation_swap.
Qed.

Lemma sort_Slice_Permutation l : sort_Slice (lessBy key) l ≡ₚ l.
Proof.
  induction l as [|x l IH]; simpl; [done|].
  fold (sort_Slice (lessBy key) l). by rewrite sort_insert_Permutation, IH.
Qed.

Lemma sort_insert_ascending x l :
  ascending key l → ascending key (sort_insert (lessBy key) x l).
Proof.
  unfold ascending. induction 1 as [|y l Hl IH Hy]; simpl.
  - repeat constructor.
  - unfold lessBy at 1. case_bool_decide as Hxy.
    + constructor; [by constructor|]. constructor; [lia|].
      eapply Forall_impl; [exact Hy|]. simpl. intros; lia.
    + constructor; [done|]. rewrite sort_insert_Permutation.
      constructor; [lia|done].
Qed.

Lemma sort_Slice_ascending l : ascending key (sort_Slice (lessBy key) l).
Proof.
  induction l as [|x l IH]; simpl; [constructor|].
  by apply sort_insert_ascending.
Qed.
End sorting.

(** ** Traces *)

Lemma requests_app t1 t2 : requests (t1 ++ t2) = requests t1 ++ requests t2.
Proof. apply omap_app. Qed.

Lemma committed_app t1 t2 : committed (t1 ++ t2) = committed t1 ++ committed t2.
Proof. unfold committed. by rewrite requests_app, omap_app. Qed.

Lemma postedParts_app t1 t2 : postedParts (t1 ++ t2) = postedParts t1 ++ postedParts t2.
Proof. unfold postedParts. by rewrite requests_app, omap_app. Qed.

Lemma requests_replicate n r : requests (replicate n (EvHTTP r)) = replicate n r.
Proof. unfold requests. induction n as [|n IH]; simpl; [done|]. f_equal. exact IH. Qed.

Lemma committed_replicate n r :
  committed (replicate n (EvHTTP r)) =
  match r with PostFiles payload => replicate n payload | _ => [] end.
Proof.
  unfold committed. rewrite requests_replicate.
  induction n as [|n IH]; [by destruct r|].
  destruct r; simpl in *; try done; f_equal; exact IH.
Qed.

Lemma postedParts_replicate n r :
  postedParts (replicate n (EvHTTP r)) =
  match r with PostPart _ _ partNo _ _ _ _ => replicate n partNo | _ => [] end.
Proof.
  unfold postedParts. rewrite requests_replicate.
  induction n as [|n IH]; [by destruct r|].
  destruct r; simpl in *; try done; f_equal; exact IH.
Qed.

(** ** The pacer *)

Lemma pacer_Call_count {St : Type} (fn : nat → St → St * (bool * option error)) r i s :
  (1 ≤ (pacer_Call fn r i s).1.1 ≤ S r)%nat.
Proof.
  revert i s. induction r as [|r IH]; intros i s; simpl.
  - destruct (fn i s) as [s' [retry err]]. simpl. lia.
  - destruct (fn i s) as [s' [retry err]]. destruct retry; simpl; [|lia].
    specialize (IH (S i) s').
    destruct (pacer_Call fn r (S i) s') as [[n s''] err']. simpl in *. lia.
Qed.

Lemma pacedCall_trace {A : Type} u (oracle : nat → attempt A) req dst :
  ∃ n, (1 ≤ n ≤ S (pc_retries (pacer u)))%nat
       ∧ (pacedCall u oracle req dst).1.1 = replicate n (EvHTTP req).
Proof.
  unfold pacedCall.
  pose proof (pacer_Call_count (pacedJSON oracle) (pc_retries (pacer u)) 0%nat (None, dst)) as Hn.
  destruct (pacer_Call _ _ _ _) as [[n s] err]. simpl in *. by exists n.
Qed.

(** ** The stages of [UploadFile] *)

Lemma checkFileExists_trace u env fileName path :
  ∃ n, (1 ≤ n)%nat ∧
    (checkFileExists u env fileName path).1 =
    EvLog Debug "checking file exists" :: replicate n (EvHTTP (GetFind fileName path)).
Proof.
  unfold checkFileExists.
  destruct (pacedCall_trace u (env_find env) (GetFind fileName path)
              (mkReadMetadataResponse [])) as (n & Hn & Ht).
  destruct (pacedCall _ _ _ _) as [[t [resp info]] err]. simpl in Ht. subst t.
  exists n. split; [lia|].
  destruct err; [done|]. destruct resp; [|done]. by destruct (_ && _).
Qed.

Lemma lookupSession_trace u env session fileSize :
  ∃ n, (lookupSession u env session fileSize).1.1 = replicate n (EvHTTP (GetSession session)).
Proof.
  unfold lookupSession. case_bool_decide; [|by exists 0%nat].
  destruct (pacedCall_trace u (env_session env) (GetSession session)
              (mkUploadFileInfo [])) as (n & Hn & Ht).
  destruct (pacedCall _ _ _ _) as [[t [resp uf]] err]. simpl in Ht. subst t.
  exists n. by destruct err.
Qed.


Lemma omap_replicate_None {A B : Type} (f : A → option B) n x :
  f x = None → omap f (replicate n x) = [].
Proof. intros Hx. induction n as [|n IH]; simpl; [done|]. rewrite Hx. exact IH. Qed.

(** What [prepare] does on the wire: existence checks, then session
    lookups, and nothing else. *)
Lemma prepare_requests u env filePath destDir :
  ∃ n m,
    requests (prepare u env filePath destDir).1 =
    replicate n (GetFind (filepath_Base filePath) destDir)
    ++ replicate m (GetSession (sessionOf (filepath_Base filePath) destDir
                                  (lf_size (env_file env)))).
Proof.
  unfold prepare.
  destruct (lf_open _); [by exists 0%nat, 0%nat|].
  destruct (file_Read _ _) as [k [e|]]; [by exists 0%nat, 0%nat|].
  destruct (checkFileExists_trace u env (filepath_Base filePath) destDir) as (n & _ & Hn).
  destruct (checkFileExists _ _ _ _) as [t_exists [exists_ err]]. simpl in Hn. subst t_exists.
  destruct err as [e|].
  { exists n, 0%nat. simpl. rewrite requests_app, requests_replicate. simpl.
    by rewrite app_nil_r. }
  destruct exists_.
  { exists n, 0%nat. simpl. rewrite requests_app, requests_replicate. simpl.
    by rewrite app_nil_r. }
  destruct (lookupSession_trace u env
              (sessionOf (filepath_Base filePath) destDir (lf_size (env_file env)))
              (lf_size (env_file env))) as (m & Hm).
  destruct (lookupSession _ _ _ _) as [[t_session uploadFile] existingParts].
  simpl in Hm. subst t_session.
  exists n, m.
  assert (∀ t', requests t' = [] →
            requests ((EvAddBar (lf_size (env_file env))
                       :: EvLog Debug "checking file exists"
                       :: replicate n (EvHTTP (GetFind (filepath_Base filePath) destDir)))
                      ++ replicate m (EvHTTP (GetSession (sessionOf (filepath_Base filePath)
                                        destDir (lf_size (env_file env))))) ++ t') =
            replicate n (GetFind (filepath_Base filePath) destDir)
            ++ replicate m (GetSession (sessionOf (filepath_Base filePath) destDir
                                          (lf_size (env_file env))))) as Hreq.
  { intros t' Ht'. rewrite !requests_app, Ht', app_nil_r, requests_replicate.
    f_equal. simpl. apply requests_replicate. }
  repeat first
    [ case_bool_decide
    | match goal with |- context [inheritSettings ?u ?f] =>
        destruct (inheritSettings u f) end
    | progress simpl ];
    try (rewrite <-(app_nil_r (replicate m (EvHTTP _))) at 1);
    rewrite <-?app_assoc; by apply Hreq.
Qed.

Lemma committed_prepare u env filePath destDir :
  committed (prepare u env filePath destDir).1 = [].
Proof.
  destruct (prepare_requests u env filePath destDir) as (n & m & Hreq).
  unfold committed. rewrite Hreq, omap_app, !omap_replicate_None; done.
Qed.

Lemma postedParts_prepare u env filePath destDir :
  postedParts (prepare u env filePath destDir).1 = [].
Proof.
  destruct (prepare_requests u env filePath destDir) as (n & m & Hreq).
  unfold postedParts. rewrite Hreq, omap_app, !omap_replicate_None; done.
Qed.

(** The run reaches the dispatch of the parts only through the one path
    of [prepare] on which nothing went wrong. *)
Lemma prepare_reaches u env filePath destDir t L :
  prepare u env filePath destDir = (t, inr L) →
  let f := env_file env in
  let fileName := filepath_Base filePath in
  let session := sessionOf fileName destDir (lf_size f) in
  let look := lookupSession u env session (lf_size f) in
  lf_open f = None
  ∧ (file_Read f 512).2 = None
  ∧ (checkFileExists u env fileName destDir).2 = (false, None)
  ∧ partSize u ≠ 0
  ∧ 0 ≤ L_totalParts L
  ∧ (0 < L_totalParts L → 0 < numWorkers u)
  ∧ L = {| L_fileName := fileName; L_fileSize := lf_size f; L_mimeType := lf_mime f;
           L_session := session; L_uploadFile := look.1.2; L_existingParts := look.2;
           L_totalParts := totalParts (lf_size f) (partSize u);
           L_channelID := (inheritSettings u look.1.2).1;
           L_encryptFile := (inheritSettings u look.1.2).2 |}.
Proof.
  unfold prepare. intros H.
  destruct (lf_open _); [done|].
  destruct (file_Read _ _) as [k [e|]]; [done|].
  destruct (checkFileExists _ _ _ _) as [t_exists [exists_ [e|]]]; [done|].
  destruct exists_; [done|].
  destruct (lookupSession _ _ _ _) as [[t_session uploadFile] existingParts].
  case_bool_decide as Hps; [done|]. simpl in H.
  destruct (bool_decide (totalParts _ _ < 0)) eqn:Htot; [done|].
  destruct (bool_decide (numWorkers u < 0)) eqn:Hnw; [done|]. simpl in H.
  apply bool_decide_eq_false in Htot, Hnw.
  destruct (inheritSettings u uploadFile) as [cid enc] eqn:Hinh.
  destruct (bool_decide (0 < totalParts _ _)) eqn:Hpos; simpl in H.
  - case_bool_decide as Hzero; [done|]. simplify_eq. simpl.
    rewrite Hinh. repeat split; try done; lia.
  - apply bool_decide_eq_false in Hpos. simplify_eq. simpl.
    rewrite Hinh. repeat split; try done; lia.
Qed.

Lemma UploadFile_early u env filePath destDir t out :
  prepare u env filePath destDir = (t, inl out) →
  UploadFile u env filePath destDir = (t, out).
Proof. unfold UploadFile. by intros ->. Qed.

Lemma UploadFile_reach u env filePath destDir t L :
  prepare u env filePath destDir = (t, inr L) →
  UploadFile u env filePath destDir =
  (t ++ (dispatchParts u env L).1 ++ (finish u env L destDir (dispatchParts u env L).2).1,
   (finish u env L destDir (dispatchParts u env L).2).2).
Proof.
  unfold UploadFile. intros ->.
  destruct (dispatchParts u env L) as [t_parts uploadedParts]. simpl.
  by destruct (finish _ _ _ _ _).
Qed.

(** *** The workers *)

Lemma length_omap_le {A B : Type} (f : A → option B) l :
  (length (omap f l) ≤ length l)%nat.
Proof. induction l as [|x l IH]; csimpl; [done|]. destruct (f x); csimpl; lia. Qed.

Lemma length_omap_lt {A B : Type} (f : A → option B) l x :
  x ∈ l → f x = None → (length (omap f l) < length l)%nat.
Proof.
  intros Hx Hf. induction l as [|y l IH]; [by apply elem_of_nil in Hx|].
  apply elem_of_cons in Hx as [<-|Hx]; csimpl.
  - rewrite Hf. pose proof (length_omap_le f l). lia.
  - specialize (IH Hx). destruct (f y); csimpl; lia.
Qed.

Lemma length_plannedParts fileSize partSize :
  0 ≤ totalParts fileSize partSize →
  Z.of_nat (length (plannedParts fileSize partSize)) = totalParts fileSize partSize.
Proof. intros Hn. unfold plannedParts. rewrite length_fmap, length_seqZ. lia. Qed.

Lemma dispatch_delivered u env L :
  (dispatchParts u env L).2 ≡ₚ omap snd (partWorkers u env L).
Proof. unfold dispatchParts. simpl. by rewrite schedule_Permutation. Qed.

Lemma dispatch_trace u env L :
  (dispatchParts u env L).1 ≡ₚ (partWorkers u env L ≫= fst) ++ [EvBarFinish].
Proof. unfold dispatchParts. simpl. by rewrite schedule_Permutation. Qed.

Lemma elem_of_delivered u env L rec :
  rec ∈ (dispatchParts u env L).2 ↔
  ∃ p, p ∈ plannedParts (L_fileSize L) (partSize u)
       ∧ (partWorker env L p.1 p.2.1 p.2.2).2 = Some rec.
Proof.
  rewrite dispatch_delivered, list_elem_of_omap. unfold partWorkers. split.
  - intros (w & (p & -> & Hp)%list_elem_of_fmap & Hw). eauto.
  - intros (p & Hp & Hw). eexists. split; [|exact Hw].
    apply list_elem_of_fmap. eauto.
Qed.

Lemma elem_of_dispatch_trace u env L e :
  e ∈ (dispatchParts u env L).1 ↔
  e = EvBarFinish
  ∨ ∃ p, p ∈ plannedParts (L_fileSize L) (partSize u)
         ∧ e ∈ (partWorker env L p.1 p.2.1 p.2.2).1.
Proof.
  rewrite dispatch_trace, elem_of_app, list_elem_of_singleton, list_elem_of_bind.
  unfold partWorkers. split.
  - intros [(w & He & (p & -> & Hp)%list_elem_of_fmap) | ->]; eauto.
  - intros [-> | (p & Hp & He)]; [by right|]. left. eexists. split; [exact He|].
    apply list_elem_of_fmap. eauto.
Qed.

(** Each worker sends at most one record, so no more records arrive
    than parts were planned, and fewer when a worker sends none. *)
Lemma delivered_le u env L :
  0 ≤ L_totalParts L → L_totalParts L = totalParts (L_fileSize L) (partSize u) →
  Z.of_nat (length (dispatchParts u env L).2) ≤ L_totalParts L.
Proof.
  intros Hn Htot. rewrite dispatch_delivered.
  pose proof (length_omap_le snd (partWorkers u env L)) as Hle.
  unfold partWorkers in Hle at 2. rewrite length_fmap in Hle.
  rewrite Htot in *. rewrite <-length_plannedParts by done. lia.
Qed.

Lemma delivered_lt u env L p :
  0 ≤ L_totalParts L → L_totalParts L = totalParts (L_fileSize L) (partSize u) →
  p ∈ plannedParts (L_fileSize L) (partSize u) →
  (partWorker env L p.1 p.2.1 p.2.2).2 = None →
  Z.of_nat (length (dispatchParts u env L).2) < L_totalParts L.
Proof.
  intros Hn Htot Hp Hnone. rewrite dispatch_delivered.
  assert (partWorker env L p.1 p.2.1 p.2.2 ∈ partWorkers u env L) as Hw.
  { unfold partWorkers. apply list_elem_of_fmap. eauto. }
  pose proof (length_omap_lt snd _ _ Hw Hnone) as Hlt.
  unfold partWorkers in Hlt at 2. rewrite length_fmap in Hlt.
  rewrite Htot in *. rewrite <-length_plannedParts by done. lia.
Qed.

Lemma elem_of_requests t r : r ∈ requests t ↔ EvHTTP r ∈ t.
Proof.
  unfold requests. rewrite list_elem_of_omap. split.
  - intros (e & He & Hr). destruct e; simplify_eq. done.
  - intros He. by exists (EvHTTP r).
Qed.

Lemma elem_of_committed t payload : payload ∈ committed t ↔ EvHTTP (PostFiles payload) ∈ t.
Proof.
  unfold committed. rewrite list_elem_of_omap. setoid_rewrite elem_of_requests. split.
  - intros (r & Hr & Hp). destruct r; simplify_eq. done.
  - intros He. by exists (PostFiles payload).
Qed.

Lemma elem_of_postedParts t partNo :
  partNo ∈ postedParts t ↔
  ∃ session fileName channelId encrypted start contentLength,
    EvHTTP (PostPart session fileName partNo channelId encrypted start contentLength) ∈ t.
Proof.
  unfold postedParts. rewrite list_elem_of_omap. setoid_rewrite elem_of_requests. split.
  - intros (r & Hr & Hp). destruct r; simplify_eq. eauto 10.
  - intros (s & f & c & e & st & len & He). eexists. split; [exact He|done].
Qed.

Lemma list_empty_no_elem {A : Type} (l : list A) : (∀ x, x ∉ l) → l = [].
Proof. destruct l as [|x l]; [done|]. intros H. destruct (H x). left. Qed.

(** What a worker can emit. *)
Lemma partWorker_events env L partNumber start end_ e :
  e ∈ (partWorker env L partNumber start end_).1 →
  match e with
  | EvHTTP r =>
      r = PostPart (L_session L) (L_fileName L) (Int64.add partNumber 1)
            (L_channelID L) (L_encryptFile L) start (Int64.sub end_ start)
      ∧ pw_open (env_part env partNumber) = None
      ∧ L_existingParts L !! Int64.add partNumber 1 = None
      ∧ pw_seek (env_part env partNumber) = None
  | EvBarIncr n =>
      ∃ existing, L_existingParts L !! Int64.add partNumber 1 = Some existing
                  ∧ n = pf_Size existing
  | EvLog _ _ => True
  | _ => False
  end.
Proof.
  unfold partWorker.
  destruct (pw_open _); simpl; [intros ->%list_elem_of_singleton; done|].
  destruct (L_existingParts L !! _) eqn:Hex; simpl;
    [intros ->%list_elem_of_singleton; eauto|].
  destruct (pw_seek _); simpl; [intros ->%list_elem_of_singleton; done|].
  destruct (pw_call _) as [resp err|status partFile]; [|case_bool_decide]; simpl;
    rewrite ?elem_of_cons, ?elem_of_nil; intros Hin; destruct_or?; subst; done.
Qed.

Lemma committed_dispatch u env L : committed (dispatchParts u env L).1 = [].
Proof.
  apply list_empty_no_elem. intros payload.
  rewrite elem_of_committed, elem_of_dispatch_trace.
  intros [?|(p & Hp & He)]; [done|].
  apply partWorker_events in He as [? _]. done.
Qed.

(** *** The completeness check and the commit *)

Lemma finish_incomplete u env L destDir uploadedParts :
  Z.of_nat (length (manifestParts uploadedParts)) ≠ L_totalParts L →
  finish u env L destDir uploadedParts =
  ([EvBarAbort; EvLog Error "uploaded parts incomplete"; EvBarClose],
   Returned (Some errIncomplete)).
Proof. intros Hne. unfold finish. by rewrite bool_decide_eq_true_2. Qed.

Lemma finish_complete u env L destDir uploadedParts :
  Z.of_nat (length (manifestParts uploadedParts)) = L_totalParts L →
  ∃ n, (1 ≤ n)%nat ∧
    committed (finish u env L destDir uploadedParts).1 =
    replicate n (filePayload L destDir (sort_Slice lessPartNo (manifestParts uploadedParts))).
Proof.
  intros Heq. unfold finish. rewrite bool_decide_eq_false_2 by (by intros ?).
  set (payload := filePayload _ _ _).
  destruct (pacedCall_trace u (env_commit env) (PostFiles payload) ()) as (n & Hn & Ht).
  destruct (pacedCall u (env_commit env) _ _) as [[t_commit s] err]. simpl in Ht. subst.
  exists n. split; [lia|].
  destruct err; simpl.
  { by rewrite committed_app, committed_replicate, app_nil_r. }
  destruct (pacedCall_trace u (env_delete env) (DeleteSession (L_session L)) ())
    as (m & Hm & Ht).
  destruct (pacedCall u (env_delete env) _ _) as [[t_delete s'] err]. simpl in Ht. subst.
  destruct err; simpl;
    by rewrite !committed_app, !committed_replicate, !app_nil_r.
Qed.

Lemma postedParts_finish u env L destDir uploadedParts :
  postedParts (finish u env L destDir uploadedParts).1 = [].
Proof.
  unfold finish. case_bool_decide; [done|].
  set (payload := filePayload _ _ _).
  destruct (pacedCall_trace u (env_commit env) (PostFiles payload) ()) as (n & Hn & Ht).
  destruct (pacedCall u (env_commit env) _ _) as [[t_commit s] err]. simpl in Ht. subst.
  destruct err; simpl.
  { by rewrite postedParts_app, postedParts_replicate. }
  destruct (pacedCall_trace u (env_delete env) (DeleteSession (L_session L)) ())
    as (m & Hm & Ht).
  destruct (pacedCall u (env_delete env) _ _) as [[t_delete s'] err]. simpl in Ht. subst.
  destruct err; simpl;
    by rewrite !postedParts_app, !postedParts_replicate.
Qed.

(** The manifests and the part uploads of a whole run. *)
Lemma committed_run u env filePath destDir :
  committed (UploadFile u env filePath destDir).1 =
  match (prepare u env filePath destDir).2 with
  | inl _ => []
  | inr L => committed (finish u env L destDir (dispatchParts u env L).2).1
  end.
Proof.
  pose proof (committed_prepare u env filePath destDir) as Hprep.
  destruct (prepare u env filePath destDir) as [t [out|L]] eqn:Hp; cbn [fst snd] in *.
  - by rewrite (UploadFile_early _ _ _ _ _ _ Hp).
  - rewrite (UploadFile_reach _ _ _ _ _ _ Hp). cbn [fst].
    by rewrite !committed_app, Hprep, committed_dispatch.
Qed.

Lemma postedParts_run u env filePath destDir :
  postedParts (UploadFile u env filePath destDir).1 =
  match (prepare u env filePath destDir).2 with
  | inl _ => []
  | inr L => postedParts (dispatchParts u env L).1
  end.
Proof.
  pose proof (postedParts_prepare u env filePath destDir) as Hprep.
  destruct (prepare u env filePath destDir) as [t [out|L]] eqn:Hp; cbn [fst snd] in *.
  - by rewrite (UploadFile_early _ _ _ _ _ _ Hp).
  - rewrite (UploadFile_reach _ _ _ _ _ _ Hp). cbn [fst].
    by rewrite !postedParts_app, Hprep, postedParts_finish, app_nil_r.
Qed.

(** ** Completeness, order and settings of the manifest *)

Lemma length_manifestParts uploadedParts :
  (length (manifestParts uploadedParts) ≤ length uploadedParts)%nat.
Proof. unfold manifestParts. rewrite length_fmap. apply length_filter. Qed.

Lemma reached_totalParts u env filePath destDir t L :
  prepare u env filePath destDir = (t, inr L) →
  0 ≤ L_totalParts L ∧ L_totalParts L = totalParts (L_fileSize L) (partSize u).
Proof.
  intros (_ & _ & _ & _ & Hn & _ & HL)%prepare_reaches.
  split; [done|]. by rewrite HL.
Qed.

(** A run in which fewer records pass the filter than parts were planned
    ends with the incomplete-parts error, and without a commit. *)
Lemma incomplete_run u env filePath destDir t L :
  prepare u env filePath destDir = (t, inr L) →
  Z.of_nat (length (manifestParts (dispatchParts u env L).2)) < L_totalParts L →
  committed (UploadFile u env filePath destDir).1 = []
  ∧ (UploadFile u env filePath destDir).2 = Returned (Some errIncomplete)
  ∧ EvLog Error "uploaded parts incomplete" ∈ (UploadFile u env filePath destDir).1.
Proof.
  intros Hp Hlt.
  assert (Z.of_nat (length (manifestParts (dispatchParts u env L).2)) ≠ L_totalParts L)
    as Hne by lia.
  rewrite committed_run, (UploadFile_reach _ _ _ _ _ _ Hp), Hp. cbn [fst snd].
  rewrite (finish_incomplete _ _ _ _ _ Hne). cbn [fst snd].
  split; [done|]. split; [done|].
  rewrite !elem_of_app. right. right. apply list_elem_of_further, list_elem_of_here.
Qed.

(** C1. [UploadFile] posts the manifest exactly when the run reaches the
    completeness check with as many collected parts as were planned;
    and when the worker of a planned part sends no record, fewer
    records are collected than planned, nothing is posted to
    [/api/files] and the call returns the incomplete-parts error. *)
Theorem commit_iff_complete u env filePath destDir :
  let run := UploadFile u env filePath destDir in
  (committed run.1 ≠ [] ↔
     ∃ t L, prepare u env filePath destDir = (t, inr L)
            ∧ Z.of_nat (length (manifestParts (dispatchParts u env L).2)) = L_totalParts L)
  ∧ (∀ t L p,
       prepare u env filePath destDir = (t, inr L) →
       p ∈ plannedParts (L_fileSize L) (partSize u) →
       (partWorker env L p.1 p.2.1 p.2.2).2 = None →
       Z.of_nat (length (manifestParts (dispatchParts u env L).2)) < L_totalParts L
       ∧ committed run.1 = []
       ∧ run.2 = Returned (Some errIncomplete)).
Proof.
  intros run. subst run. split.
  - rewrite committed_run.
    destruct (prepare u env filePath destDir) as [t [out|L]] eqn:Hp; cbn [snd].
    { split; [done|]. by intros (? & ? & ? & _). }
    destruct (decide (Z.of_nat (length (manifestParts (dispatchParts u env L).2))
                      = L_totalParts L)) as [Heq|Hne].
    + destruct (finish_complete u env L destDir _ Heq) as (n & Hn & ->).
      split; [eauto|]. intros _. destruct n; [lia|done].
    + rewrite (finish_incomplete _ _ _ _ _ Hne). cbn [fst].
      split; [done|]. intros (? & ? & ? & ?). by simplify_eq.
  - intros t L p Hp Hplanned Hnone.
    destruct (reached_totalParts _ _ _ _ _ _ Hp) as [Hn Htot].
    pose proof (delivered_lt u env L p Hn Htot Hplanned Hnone) as Hlt.
    pose proof (length_manifestParts (dispatchParts u env L).2) as Hle.
    assert (Z.of_nat (length (manifestParts (dispatchParts u env L).2)) < L_totalParts L)
      as Hlt' by lia.
    split; [done|].
    destruct (incomplete_run _ _ _ _ _ _ Hp Hlt') as (? & ? & _). done.
Qed.

(** The 2500-byte file: with every part acknowledged the manifest is
    posted; with the second part answered 500 it is not. *)
Lemma commit_iff_complete_witness :
  committed (UploadFile sampleService freshWorld "/data/f.bin" "/dst").1 ≠ []
  ∧ committed (UploadFile sampleService droppedWorld "/data/f.bin" "/dst").1 = []
  ∧ (UploadFile sampleService droppedWorld "/data/f.bin" "/dst").2
    = Returned (Some errIncomplete).
Proof.
  split.
  - apply (commit_iff_complete sampleService freshWorld "/data/f.bin" "/dst").
    eexists _, _. split; [reflexivity|]. vm_compute. reflexivity.
  - pose proof (commit_iff_complete sampleService droppedWorld "/data/f.bin" "/dst")
      as [_ Hdrop].
    evar (t : list event). evar (L : Locals).
    assert (prepare sampleService droppedWorld "/data/f.bin" "/dst" = (t, inr L)) as Hp
      by (subst t L; reflexivity).
    destruct (Hdrop t L (1, (1000, 2000)) Hp) as (_ & Hnone & Hout).
    + subst L. vm_compute. apply list_elem_of_further, list_elem_of_here.
    + subst L. vm_compute. reflexivity.
    + split; [exact Hnone|exact Hout].
Defined.

Lemma elem_of_manifestParts uploadedParts part :
  part ∈ manifestParts uploadedParts ↔
  ∃ rec, rec ∈ uploadedParts ∧ pf_PartId rec ≠ 0 ∧ pf_Size rec ≠ 0
         ∧ part = mkFilePart (pf_PartId rec) (pf_PartNo rec) (pf_Salt rec).
Proof.
  unfold manifestParts. rewrite list_elem_of_fmap. split.
  - intros (rec & -> & [[Hid Hsz] Hrec]%list_elem_of_filter). eauto 10.
  - intros (rec & Hrec & Hid & Hsz & ->). exists rec. split; [done|].
    apply list_elem_of_filter. auto.
Qed.

Lemma length_manifestParts_lt uploadedParts rec :
  rec ∈ uploadedParts → pf_PartId rec = 0 ∨ pf_Size rec = 0 →
  (length (manifestParts uploadedParts) < length uploadedParts)%nat.
Proof.
  intros Hrec Hzero. unfold manifestParts. rewrite length_fmap.
  apply (length_filter_lt _ _ rec); [done|]. tauto.
Qed.

(** The manifests of a run: copies of one payload, whose parts are the
    collected parts, sorted. *)
Lemma committed_payload u env filePath destDir payload :
  payload ∈ committed (UploadFile u env filePath destDir).1 →
  ∃ t L, prepare u env filePath destDir = (t, inr L)
         ∧ payload = filePayload L destDir
                       (sort_Slice lessPartNo (manifestParts (dispatchParts u env L).2)).
Proof.
  rewrite committed_run.
  destruct (prepare u env filePath destDir) as [t [out|L]] eqn:Hp; cbn [snd].
  { by intros ?%elem_of_nil. }
  destruct (decide (Z.of_nat (length (manifestParts (dispatchParts u env L).2))
                    = L_totalParts L)) as [Heq|Hne].
  - destruct (finish_complete u env L destDir _ Heq) as (n & Hn & ->).
    intros ->%elem_of_replicate_inv. eauto.
  - rewrite (finish_incomplete _ _ _ _ _ Hne). by intros ?%elem_of_nil.
Qed.

(** C9. A record that arrives on the results channel with part id 0 or
    size 0 is left out of the parts list: the list is then shorter
    than the plan, nothing is committed and the call returns the
    incomplete-parts error. Every part of a committed manifest stems
    from a delivered record with a nonzero part id and a nonzero
    size. *)
Theorem zero_records_excluded u env filePath destDir :
  let run := UploadFile u env filePath destDir in
  (∀ t L rec,
     prepare u env filePath destDir = (t, inr L) →
     rec ∈ (dispatchParts u env L).2 →
     pf_PartId rec = 0 ∨ pf_Size rec = 0 →
     Z.of_nat (length (manifestParts (dispatchParts u env L).2)) < L_totalParts L
     ∧ committed run.1 = []
     ∧ run.2 = Returned (Some errIncomplete))
  ∧ (∀ payload part,
       payload ∈ committed run.1 → part ∈ py_Parts payload →
       fp_ID part ≠ 0
       ∧ ∃ t L rec, prepare u env filePath destDir = (t, inr L)
                    ∧ rec ∈ (dispatchParts u env L).2
                    ∧ pf_PartId rec ≠ 0 ∧ pf_Size rec ≠ 0
                    ∧ part = mkFilePart (pf_PartId rec) (pf_PartNo rec) (pf_Salt rec)).
Proof.
  intros run. subst run. split.
  - intros t L rec Hp Hrec Hzero.
    destruct (reached_totalParts _ _ _ _ _ _ Hp) as [Hn Htot].
    pose proof (delivered_le u env L Hn Htot) as Hle.
    pose proof (length_manifestParts_lt _ _ Hrec Hzero) as Hlt.
    assert (Z.of_nat (length (manifestParts (dispatchParts u env L).2)) < L_totalParts L)
      as Hlt' by lia.
    split; [done|].
    destruct (incomplete_run _ _ _ _ _ _ Hp Hlt') as (? & ? & _). done.
  - intros payload part (t & L & Hp & ->)%committed_payload. simpl.
    rewrite (sort_Slice_Permutation fp_PartNo).
    intros (rec & Hrec & Hid & Hsz & ->)%elem_of_manifestParts.
    split; [done|]. eauto 10.
Qed.

(** A 201 without a part id for the second part: the file is not
    committed; the fresh upload commits parts with ids 101 to 103. *)
Lemma zero_records_excluded_witness :
  committed (UploadFile sampleService noIdWorld "/data/f.bin" "/dst").1 = []
  ∧ (UploadFile sampleService noIdWorld "/data/f.bin" "/dst").2
    = Returned (Some errIncomplete).
Proof.
  pose proof (zero_records_excluded sampleService noIdWorld "/data/f.bin" "/dst")
    as [Hzero _].
  evar (t : list event). evar (L : Locals).
  assert (prepare sampleService noIdWorld "/data/f.bin" "/dst" = (t, inr L)) as Hp
    by (subst t L; reflexivity).
  destruct (Hzero t L (mkPartFile "f.bin.part" 0 2 1000 9 true "salt") Hp)
    as (_ & Hnone & Hout).
  - subst L. vm_compute. apply list_elem_of_further, list_elem_of_here.
  - left. reflexivity.
  - split; [exact Hnone|exact Hout].
Defined.

(** C4. Whatever order the records were collected in, the parts of a
    manifest that [UploadFile] posts are in ascending order of part
    number, and they are the collected parts. *)
Theorem manifest_sorted u env filePath destDir payload :
  payload ∈ committed (UploadFile u env filePath destDir).1 →
  ascending fp_PartNo (py_Parts payload)
  ∧ ∃ t L, prepare u env filePath destDir = (t, inr L)
           ∧ py_Parts payload ≡ₚ manifestParts (dispatchParts u env L).2
           ∧ (dispatchParts u env L).2 ≡ₚ omap snd (partWorkers u env L).
Proof.
  intros (t & L & Hp & ->)%committed_payload. simpl. split.
  - apply (sort_Slice_ascending fp_PartNo).
  - exists t, L. split; [done|]. split.
    + apply (sort_Slice_Permutation fp_PartNo).
    + apply dispatch_delivered.
Qed.

(** The third worker of the fresh upload finishes first; the manifest
    lists the parts as 1, 2, 3. *)
Lemma manifest_sorted_witness :
  let payload :=
    {| py_Name := "f.bin"; py_Type := "file";
       py_Parts := [mkFilePart 101 1 "salt"; mkFilePart 102 2 "salt";
                    mkFilePart 103 3 "salt"];
       py_MimeType := "application/octet-stream"; py_Path := "/dst";
       py_Size := 2500; py_ChannelID := 7; py_Encrypted := false |} in
  payload ∈ committed (UploadFile sampleService freshWorld "/data/f.bin" "/dst").1
  ∧ ascending fp_PartNo (py_Parts payload).
Proof.
  intros payload.
  assert (payload ∈ committed (UploadFile sampleService freshWorld "/data/f.bin" "/dst").1)
    as Hpayload by (vm_compute; apply list_elem_of_here).
  split; [exact Hpayload|].
  exact (proj1 (manifest_sorted sampleService freshWorld "/data/f.bin" "/dst" payload Hpayload)).
Defined.

Lemma indexParts_nonempty (part : PartFile) (parts : list PartFile) :
  indexParts (part :: parts) ≠ ∅.
Proof.
  unfold indexParts. cbn [foldl].
  assert (∀ (m : gmap Z PartFile),
            m ≠ ∅ → foldl (λ m part, <[pf_PartNo part := part]> m) m parts ≠ ∅) as Hgen.
  { induction parts as [|p parts IH]; intros m Hm; [done|].
    cbn [foldl]. apply IH, insert_non_empty. }
  apply Hgen, insert_non_empty.
Qed.

(** C8. The channel and the encryption flag of every part upload and of
    the manifest are those of the first part record of the decoded
    session answer when there is one, and the configured defaults when
    there is none. When the session lookup is not made or ends without
    error, the answer has a record exactly when existing parts are
    found: with none found the configured defaults are used, otherwise
    the settings of the first existing record. *)
Theorem settings_inherited u env filePath destDir :
  let f := env_file env in
  let fileName := filepath_Base filePath in
  let session := sessionOf fileName destDir (lf_size f) in
  let uploadFile := (lookupSession u env session (lf_size f)).1.2 in
  let existingParts := (lookupSession u env session (lf_size f)).2 in
  let lookup := pacedCall u (env_session env) (GetSession session) (mkUploadFileInfo []) in
  let settings :=
    match uf_Parts uploadFile with
    | first :: _ => (pf_ChannelID first, pf_Encrypted first)
    | [] => (channelID u, encryptFiles u)
    end in
  let run := UploadFile u env filePath destDir in
  (∀ s name partNo channelId encrypted start len,
     EvHTTP (PostPart s name partNo channelId encrypted start len) ∈ run.1 →
     (channelId, encrypted) = settings)
  ∧ (∀ payload, payload ∈ committed run.1 →
       (py_ChannelID payload, py_Encrypted payload) = settings)
  ∧ ((partSize u < lf_size f → lookup.2 = None) →
       (existingParts = ∅ → settings = (channelID u, encryptFiles u))
       ∧ (∀ first rest, uf_Parts uploadFile = first :: rest →
            existingParts ≠ ∅
            ∧ settings = (pf_ChannelID first, pf_Encrypted first))).
Proof.
  intros f fileName session uploadFile existingParts lookup settings run.
  assert (∀ t L, prepare u env filePath destDir = (t, inr L) →
            (L_channelID L, L_encryptFile L) = settings) as Hset.
  { intros t L (_ & _ & _ & _ & _ & _ & ->)%prepare_reaches. simpl.
    fold f fileName session uploadFile. unfold inheritSettings, settings.
    by destruct (uf_Parts uploadFile). }
  split; [|split].
  - intros s name partNo channelId encrypted start len Hin.
    assert (partNo ∈ postedParts run.1) as Hposted
      by (apply elem_of_postedParts; eauto 10).
    subst run. rewrite postedParts_run in Hposted.
    destruct (prepare u env filePath destDir) as [t [out|L]] eqn:Hp; cbn [snd] in Hposted.
    { by apply elem_of_nil in Hposted. }
    rewrite (UploadFile_reach _ _ _ _ _ _ Hp) in Hin. cbn [fst] in Hin.
    rewrite !elem_of_app in Hin. destruct Hin as [Hin|[Hin|Hin]].
    + assert (partNo ∈ postedParts t) as Hbad by (apply elem_of_postedParts; eauto 10).
      pose proof (postedParts_prepare u env filePath destDir) as Hnil.
      rewrite Hp in Hnil. cbn [fst] in Hnil. rewrite Hnil in Hbad.
      by apply elem_of_nil in Hbad.
    + apply elem_of_dispatch_trace in Hin as [?|(p & Hplanned & Hin)]; [done|].
      apply partWorker_events in Hin as [Heq _].
      injection Heq as _ _ _ -> -> _ _. exact (Hset _ _ eq_refl).
    + assert (partNo ∈ postedParts (finish u env L destDir (dispatchParts u env L).2).1)
        as Hbad by (apply elem_of_postedParts; eauto 10).
      rewrite postedParts_finish in Hbad. by apply elem_of_nil in Hbad.
  - intros payload (t & L & Hp & ->)%committed_payload. simpl. by apply (Hset t).
  - intros Hok.
    assert (existingParts = indexParts (uf_Parts uploadFile)) as Hindex.
    { subst existingParts uploadFile. unfold lookupSession.
      case_bool_decide as Hlarge; [|done].
      specialize (Hok Hlarge). subst lookup.
      destruct (pacedCall u (env_session env) (GetSession session) (mkUploadFileInfo []))
        as [[t [resp answer]] err].
      cbn [snd] in Hok. by subst err. }
    split.
    + intros Hnone. subst settings.
      destruct (uf_Parts uploadFile) as [|first rest]; [done|].
      rewrite Hindex in Hnone. by apply indexParts_nonempty in Hnone.
    + intros first rest Hparts. subst settings. rewrite Hindex, Hparts.
      split; [apply indexParts_nonempty|done].
Qed.

(** The resumed upload runs under channel 7 without encryption, its
    session was filled under channel 9 with encryption and is looked up
    without error: existing parts are found, and the one part that is
    uploaded carries channel 9 and encryption. *)
Lemma settings_inherited_witness :
  EvHTTP (PostPart (md5_Sum "f.bin:/dst:2500") "f.bin" 3 9 true 2000 500)
    ∈ (UploadFile sampleService resumedWorld "/data/f.bin" "/dst").1
  ∧ (9, true) = (pf_ChannelID (samplePart 2), pf_Encrypted (samplePart 2))
  ∧ (pacedCall sampleService (env_session resumedWorld)
       (GetSession (md5_Sum "f.bin:/dst:2500")) (mkUploadFileInfo [])).2 = None
  ∧ (lookupSession sampleService resumedWorld (md5_Sum "f.bin:/dst:2500") 2500).2 ≠ ∅.
Proof.
  assert (EvHTTP (PostPart (md5_Sum "f.bin:/dst:2500") "f.bin" 3 9 true 2000 500)
            ∈ (UploadFile sampleService resumedWorld "/data/f.bin" "/dst").1) as Hin.
  { vm_compute. do 5 apply list_elem_of_further. apply list_elem_of_here. }
  assert ((pacedCall sampleService (env_session resumedWorld)
             (GetSession (md5_Sum "f.bin:/dst:2500")) (mkUploadFileInfo [])).2 = None)
    as Hok by reflexivity.
  destruct (settings_inherited sampleService resumedWorld "/data/f.bin" "/dst")
    as (Hparts & _ & Hfound).
  split; [exact Hin|].
  split; [exact (Hparts _ _ _ _ _ _ _ Hin)|].
  split; [exact Hok|].
  exact (proj1 (proj2 (Hfound (λ _, Hok)) (samplePart 2) [samplePart 1] eq_refl)).
Defined.

(** C8 as stated fails when the session lookup ends in an error after
    its answer has been decoded: no existing part is found and all
    three parts are uploaded afresh, yet they and the manifest carry
    channel 9 and encryption, from the first record of the answer, and
    not the configured channel 7 without encryption. *)
Lemma defaults_not_used_after_failed_lookup :
  ∃ t L,
    prepare sampleService cancelledLookupWorld "/data/f.bin" "/dst" = (t, inr L)
    ∧ (pacedCall sampleService (env_session cancelledLookupWorld)
         (GetSession (L_session L)) (mkUploadFileInfo [])).2
      = Some (mkError "context canceled" false)
    ∧ L_existingParts L = ∅
    ∧ postedParts (UploadFile sampleService cancelledLookupWorld "/data/f.bin" "/dst").1
      = [1; 2; 3]
    ∧ (channelID sampleService, encryptFiles sampleService) = (7, false)
    ∧ (L_channelID L, L_encryptFile L) = (9, true)
    ∧ EvHTTP (PostPart (L_session L) "f.bin" 1 9 true 0 1000)
        ∈ (UploadFile sampleService cancelledLookupWorld "/data/f.bin" "/dst").1
    ∧ (λ payload, (py_ChannelID payload, py_Encrypted payload))
        <$> committed (UploadFile sampleService cancelledLookupWorld "/data/f.bin" "/dst").1
      = [(9, true)].
Proof.
  eexists _, _. split; [reflexivity|]. vm_compute.
  repeat split. do 4 apply list_elem_of_further. apply list_elem_of_here.
Qed.

(** ** Early exits *)



Lemma progressAfter_app t1 t2 p :
  progressAfter (t1 ++ t2) p = progressAfter t2 (progressAfter t1 p).
Proof. apply foldl_app. Qed.

Lemma progressAfter_requests n r p :
  progressAfter (replicate n (EvHTTP r)) p = p.
Proof. induction n as [|n IH]; [done|]. exact IH. Qed.



(** ** The part workers *)

Lemma totalParts_in_range fileSize partSize :
  Int64.in_range (totalParts fileSize partSize).
Proof.
  unfold totalParts, Int64.quot, Int64.add.
  case_bool_decide; apply Int64_wrap_in_range.
Qed.

(** The loop variable of a planned part, its 1-based number and its
    range. *)
Lemma elem_of_plannedParts fileSize partSize p :
  p ∈ plannedParts fileSize partSize ↔
  0 ≤ p.1 < totalParts fileSize partSize ∧ p.2 = partRange fileSize partSize p.1.
Proof.
  unfold plannedParts. rewrite list_elem_of_fmap. setoid_rewrite elem_of_seqZ. split.
  - intros (i & -> & Hi). simpl. split; [lia|done].
  - intros [Hi Hr]. exists p.1. split; [|lia]. destruct p as [i r]; simpl in *. by subst.
Qed.

Lemma planned_number fileSize partSize p :
  p ∈ plannedParts fileSize partSize → Int64.add p.1 1 = p.1 + 1.
Proof.
  intros [Hi _]%elem_of_plannedParts.
  pose proof (totalParts_in_range fileSize partSize) as Hr.
  unfold Int64.add. apply Int64_wrap_id. int64_consts. lia.
Qed.


(** A worker either stays off the network, or posts its part once and
    delivers what a 201 answer carries. *)
Lemma partWorker_requests env L partNumber start end_ :
  let w := partWorker env L partNumber start end_ in
  requests w.1 = [] ∧ postedParts w.1 = []
  ∨ requests w.1 = [PostPart (L_session L) (L_fileName L) (Int64.add partNumber 1)
                      (L_channelID L) (L_encryptFile L) start (Int64.sub end_ start)]
    ∧ postedParts w.1 = [Int64.add partNumber 1]
    ∧ L_existingParts L !! Int64.add partNumber 1 = None
    ∧ ∀ rec, w.2 = Some rec ↔ pw_call (env_part env partNumber) = CallOk 201 rec.
Proof.
  unfold partWorker.
  destruct (pw_open _); [by left|].
  destruct (L_existingParts L !! _); [by left|].
  destruct (pw_seek _); [by left|].
  right.
  destruct (pw_call _) as [resp err|status partFile]; [|case_bool_decide]; simpl;
    (split; [done|]); (split; [done|]); (split; [done|]); intros rec;
    split; intros Heq; by simplify_eq.
Qed.

Lemma postedParts_workers (F : Z * (Z * Z) → list event * option PartFile) planned :
  postedParts ((F <$> planned) ≫= fst) = planned ≫= (λ p, postedParts (F p).1).
Proof.
  induction planned as [|p planned IH]; [done|].
  csimpl. by rewrite postedParts_app, IH.
Qed.

Lemma postedParts_dispatch u env L :
  postedParts (dispatchParts u env L).1 ≡ₚ
  plannedParts (L_fileSize L) (partSize u)
    ≫= (λ p, postedParts (partWorker env L p.1 p.2.1 p.2.2).1).
Proof.
  unfold postedParts at 1, requests. rewrite dispatch_trace.
  fold (requests ((partWorkers u env L ≫= fst) ++ [EvBarFinish])).
  fold (postedParts ((partWorkers u env L ≫= fst) ++ [EvBarFinish])).
  rewrite postedParts_app. simpl. rewrite app_nil_r.
  unfold partWorkers. by rewrite postedParts_workers.
Qed.




(** ** Resumed parts *)



(** With parts 1 and 2 of 3 in the session, exactly one part upload is
    issued, for part 3, and the manifest lists the parts 1, 2, 3. *)
Example resume_two_of_three :
  let run := UploadFile sampleService resumedWorld "/data/f.bin" "/dst" in
  postedParts run.1 = [3]
  ∧ (λ payload, fp_PartNo <$> py_Parts payload) <$> committed run.1 = [[1; 2; 3]]
  ∧ run.2 = Returned None.
Proof. vm_compute. done. Qed.


(** ** The worker pools *)

Section pool.
Import Pool.
Variable u : UploadService.
Hypothesis Hworkers : 0 ≤ numWorkers u.

Lemma send_Some c c' :
  send c = Some c' → ch_cap c' = ch_cap c ∧ ch_len c' = ch_len c + 1 ∧ ch_len c < ch_cap c.
Proof. unfold send. case_bool_decide; intros; by simplify_eq. Qed.

Lemma recv_Some c c' :
  recv c = Some c' → ch_cap c' = ch_cap c ∧ ch_len c' = ch_len c - 1 ∧ 0 < ch_len c.
Proof. unfold recv. case_bool_decide; intros; by simplify_eq. Qed.

Lemma pool_inv_init : pool_inv u (init u).
Proof. unfold pool_inv, init, make. simpl. repeat split; [lia|constructor]. Qed.

Lemma pool_inv_step a s s' : pool_inv u s → step u a s = Some s' → pool_inv u s'.
Proof using Hworkers.
  intros (Hcap & Hlen & Hle & Hruns) Hstep. unfold pool_inv.
  destruct a as [total|k|k|k]; simpl in Hstep.
  - destruct (send (sys_concurrentFiles s)) as [files|] eqn:Hsend; simplify_eq/=.
    apply send_Some in Hsend as (Hc & Hl & Hlt).
    rewrite length_app, Forall_app, Forall_singleton. simpl.
    repeat split; try done; lia.
  - destruct (sys_runs s !! k) as [r|] eqn:Hk; simplify_eq/=.
    case_guard; simplify_eq/=.
    destruct (send (concurrentWorkers r)) as [workers|] eqn:Hsend; simplify_eq/=.
    apply send_Some in Hsend as (Hc & Hl & Hlt).
    pose proof (Forall_lookup_1 _ _ _ _ Hruns Hk) as (Hrc & Hrl).
    rewrite length_insert. repeat split; try done.
    apply Forall_insert; [done|]. simpl. lia.
  - destruct (sys_runs s !! k) as [r|] eqn:Hk; simplify_eq/=.
    destruct (recv (concurrentWorkers r)) as [workers|] eqn:Hrecv; simplify_eq/=.
    apply recv_Some in Hrecv as (Hc & Hl & Hlt).
    pose proof (Forall_lookup_1 _ _ _ _ Hruns Hk) as (Hrc & Hrl).
    rewrite length_insert. repeat split; try done.
    apply Forall_insert; [done|]. simpl. lia.
  - destruct (sys_runs s !! k) as [r|] eqn:Hk; simplify_eq/=.
    case_guard; simplify_eq/=.
    destruct (recv (sys_concurrentFiles s)) as [files|] eqn:Hrecv; simplify_eq/=.
    apply recv_Some in Hrecv as (Hc & Hl & Hlt).
    rewrite length_delete by eauto.
    pose proof (lookup_lt_Some _ _ _ Hk).
    repeat split; try lia. by apply Forall_delete.
Qed.

Lemma pool_inv_run acts s s' : pool_inv u s → run u acts s = Some s' → pool_inv u s'.
Proof using Hworkers.
  revert s. induction acts as [|a acts IH]; intros s Hinv Hrun; simpl in Hrun.
  - by simplify_eq.
  - destruct (step u a s) as [s1|] eqn:Hstep; simplify_eq/=.
    eapply IH; [|done]. by eapply pool_inv_step.
Qed.

Lemma inflight_bound s :
  pool_inv u s → inflight s ≤ Z.of_nat (length (sys_runs s)) * numWorkers u.
Proof using Hworkers.
  intros (_ & _ & _ & Hruns). unfold inflight.
  induction Hruns as [|r runs [_ Hr] _ IH]; simpl; [lia|]. nia.
Qed.
End pool.

(** C5 (as amended). [concurrentWorkers] is made by every call of
    [UploadFile]: in every reachable state each upload in flight has a
    pool of its own of the configured size and at most that many of its
    part workers in flight; at most [concurrentFiles] uploads are in
    flight, so the part workers in flight over all files number at most
    the product of the two sizes. *)
Theorem part_pool_per_file u acts s :
  0 ≤ numWorkers u → 0 ≤ concurrentFiles u →
  Pool.run u acts (Pool.init u) = Some s →
  Forall (λ r, Pool.ch_cap (Pool.concurrentWorkers r) = numWorkers u
               ∧ 0 ≤ Pool.ch_len (Pool.concurrentWorkers r) ≤ numWorkers u)
         (Pool.sys_runs s)
  ∧ Z.of_nat (length (Pool.sys_runs s)) ≤ concurrentFiles u
  ∧ Pool.inflight s ≤ concurrentFiles u * numWorkers u.
Proof.
  intros Hworkers Hfiles Hrun.
  pose proof (pool_inv_run u Hworkers acts _ _ (pool_inv_init u) Hrun) as Hinv.
  pose proof (inflight_bound u Hworkers s Hinv) as Hbound.
  destruct Hinv as (Hcap & Hlen & Hle & Hruns).
  split; [done|]. split; [lia|]. nia.
Qed.

(** One part worker at a time, two files at a time: two files, each
    with a part in flight. *)
Lemma part_pool_per_file_witness :
  let u := NewUploadService 1 2 1000 false false 7 false (mkPacer 2) in
  let acts := [Pool.StartFile 3; Pool.StartFile 1; Pool.StartPart 0; Pool.StartPart 1] in
  0 ≤ numWorkers u ∧ 0 ≤ concurrentFiles u
  ∧ ∃ s, Pool.run u acts (Pool.init u) = Some s
         ∧ Pool.inflight s = 2
         ∧ Pool.inflight s ≤ concurrentFiles u * numWorkers u.
Proof.
  intros u acts.
  assert (0 ≤ numWorkers u) as Hworkers by (vm_compute; discriminate).
  assert (0 ≤ concurrentFiles u) as Hfiles by (vm_compute; discriminate).
  split; [exact Hworkers|]. split; [exact Hfiles|].
  eexists. split; [reflexivity|]. split; [reflexivity|].
  exact (proj2 (proj2 (part_pool_per_file u acts _ Hworkers Hfiles eq_refl))).
Defined.

(** C5 as stated fails: with room for one part worker and two files,
    two part workers are in flight at once, one in the pool of each
    file; the second file's pool was made empty while the first file's
    was full. *)
Lemma part_pool_not_shared :
  let u := NewUploadService 1 2 1000 false false 7 false (mkPacer 2) in
  ∃ s1 s2,
    Pool.run u [Pool.StartFile 3; Pool.StartPart 0; Pool.StartFile 1] (Pool.init u) = Some s1
    ∧ Pool.concurrentWorkers <$> Pool.sys_runs s1 = [Pool.mkChan 1 1; Pool.mkChan 1 0]
    ∧ Pool.run u [Pool.StartPart 1] s1 = Some s2
    ∧ numWorkers u = 1
    ∧ Pool.inflight s2 = 2
    ∧ ¬ Pool.inflight s2 ≤ numWorkers u.
Proof.
  intros u. eexists _, _. split; [reflexivity|]. split; [reflexivity|].
  split; [reflexivity|]. split; [reflexivity|]. split; [reflexivity|].
  vm_compute. by intros H.
Qed.

(** ** Scenarios *)

Example filepath_Base_ex :
  filepath_Base "/data/in/movie.mkv" = "movie.mkv" ∧ filepath_Base "a/b/" = "b"
  ∧ filepath_Base "///" = "/" ∧ filepath_Base "" = "."
  ∧ sessionInput "f.bin" "/dst" 2500 = "f.bin:/dst:2500".
Proof. repeat split; reflexivity. Qed.

(** 2500 bytes in parts of 1000: three parts, all acknowledged, one
    commit with the three parts in order, one session delete. *)
Example fresh_upload :
  let run := UploadFile sampleService freshWorld "/data/f.bin" "/dst" in
  plannedParts 2500 1000 = [(0, (0, 1000)); (1, (1000, 2000)); (2, (2000, 2500))]
  ∧ postedParts run.1 = [3; 1; 2]
  ∧ (λ payload, fp_PartNo <$> py_Parts payload) <$> committed run.1 = [[1; 2; 3]]
  ∧ drop 5 (requests run.1)
    = [PostFiles (filePayload
                    (mkLocals "f.bin" 2500 "application/octet-stream"
                       (md5_Sum "f.bin:/dst:2500") (mkUploadFileInfo []) ∅ 3 7 false)
                    "/dst"
                    [mkFilePart 101 1 "salt"; mkFilePart 102 2 "salt";
                     mkFilePart 103 3 "salt"]);
       DeleteSession (md5_Sum "f.bin:/dst:2500")]
  ∧ run.2 = Returned None.
Proof. vm_compute. done. Qed.

(** The pacer repeats the existence check after a 503; nothing else is
    sent. *)
Example flaky_existence_check :
  UploadFile sampleService flakyWorld "/data/f.bin" "/dst"
  = ([EvAddBar 2500; EvLog Debug "checking file exists";
      EvHTTP (GetFind "f.bin" "/dst"); EvHTTP (GetFind "f.bin" "/dst");
      EvAddExisting 2500; EvLog Info "file exists"; EvBarClose], Returned None).
Proof. vm_compute. done. Qed.

(** * Further properties *)

(** ** Paced calls *)

Lemma attemptVerdict_retry {A : Type} (a : attempt A) :
  (attemptVerdict a).1 = true ↔ retryable a.
Proof.
  unfold attemptVerdict, shouldRetry, ContextError, retryable, ShouldRetry, ShouldRetryHTTP.
  destruct (att_ctx a) as [ce|]; simpl.
  { split; [done|]. by intros [? _]. }
  rewrite orb_true_iff. split.
  - intros [Herr|Hst]; (split; [done|]).
    + left. destruct (attemptErr a) as [e|]; [eauto|done].
    + right. destruct (attemptResp a) as [st|]; [|done].
      apply bool_decide_eq_true in Hst. eauto.
  - intros [_ [(e & -> & He)|(st & -> & Hst)]]; [by left|].
    right. by apply bool_decide_eq_true.
Qed.

Lemma attemptVerdict_cancelled {A : Type} (a : attempt A) ce :
  att_ctx a = Some ce →
  (attemptVerdict a).1 = false ∧ (attemptVerdict a).2 = Some (default ce (attemptErr a)).
Proof. unfold attemptVerdict, shouldRetry, ContextError. by intros ->. Qed.

Lemma attemptVerdict_alive {A : Type} (a : attempt A) :
  att_ctx a = None → (attemptVerdict a).2 = attemptErr a.
Proof. unfold attemptVerdict, shouldRetry, ContextError. by intros ->. Qed.

Lemma pacedJSON_verdict {A : Type} (oracle : nat → attempt A) i s :
  (pacedJSON oracle i s).2 = attemptVerdict (oracle i)
  ∧ (pacedJSON oracle i s).1.1 = attemptResp (oracle i)
  ∧ (pacedJSON oracle i s).1.2 =
    match att_res (oracle i) with CallErr _ _ => s.2 | CallOk _ body => body end.
Proof.
  unfold pacedJSON, attemptVerdict, attemptResp, attemptErr, CallJSON.
  by destruct (att_res (oracle i)).
Qed.

(** The attempts of [pacer.Call] on the closure of a call site: all but
    the last asked for a retry, the last did not or used up the budget,
    and the results are those of the last. *)
Lemma pacer_Call_attempts {A : Type} (oracle : nat → attempt A) r i s :
  let res := pacer_Call (pacedJSON oracle) r i s in
  let n := res.1.1 in
  let last := oracle (i + n - 1)%nat in
  (1 ≤ n ≤ S r)%nat
  ∧ (∀ j, (S j < n)%nat → (attemptVerdict (oracle (i + j)%nat)).1 = true)
  ∧ (n = S r ∨ (attemptVerdict last).1 = false)
  ∧ res.2 = (if (attemptVerdict last).1 then Some (RetryError (attemptVerdict last).2)
             else (attemptVerdict last).2)
  ∧ res.1.2.1 = attemptResp last
  ∧ (∀ status body, att_res last = CallOk status body → res.1.2.2 = body).
Proof.
  revert i s. induction r as [|r IH]; intros i s; cbn [pacer_Call].
  - destruct (pacedJSON_verdict oracle i s) as (Hv & Hresp & Hdst).
    destruct (pacedJSON oracle i s) as [s' [retry err]]. simpl in *.
    replace (i + 1 - 1)%nat with i by lia.
    rewrite <-Hv. simpl.
    split; [lia|]. split; [intros; lia|]. split; [by left|]. split; [done|].
    split; [done|]. intros st b Hok. by rewrite Hok in Hdst.
  - destruct (pacedJSON_verdict oracle i s) as (Hv & Hresp & Hdst).
    destruct (pacedJSON oracle i s) as [s' [retry err]]. simpl in Hv, Hresp, Hdst.
    destruct retry.
    + specialize (IH (S i) s').
      destruct (pacer_Call (pacedJSON oracle) r (S i) s') as [[n s''] err'].
      cbn [fst snd] in *.
      destruct IH as (Hn & Hretry & Hlast & Herr & Hr & Hb).
      replace (i + S n - 1)%nat with (S i + n - 1)%nat by lia.
      split; [lia|]. split.
      { intros [|j] Hj.
        - replace (i + 0)%nat with i by lia. by rewrite <-Hv.
        - replace (i + S j)%nat with (S i + j)%nat by lia. apply Hretry. lia. }
      split; [destruct Hlast; [left; lia|by right]|]. done.
    + cbn [fst snd]. replace (i + 1 - 1)%nat with i by lia.
      rewrite <-Hv. cbn [fst snd].
      split; [lia|]. split; [intros; lia|]. split; [by right|]. split; [done|].
      split; [done|]. intros st b Hok. by rewrite Hok in Hdst.
Qed.

(** X1. A paced request is sent at least once and at most once more than
    the pacer's retries; it is sent again only after an attempt made
    with a live context that ended in a retriable error or in one of
    the statuses 429, 500, 502, 503, 504, 509. *)
Theorem paced_call_repeats_only_retryable {A : Type} u (oracle : nat → attempt A) req dst :
  let t := (pacedCall u oracle req dst).1.1 in
  let n := length t in
  t = replicate n (EvHTTP req)
  ∧ (1 ≤ n ≤ S (pc_retries (pacer u)))%nat
  ∧ (∀ j, (S j < n)%nat → retryable (oracle j))
  ∧ ((n < S (pc_retries (pacer u)))%nat → ¬ retryable (oracle (n - 1)%nat)).
Proof.
  unfold pacedCall.
  pose proof (pacer_Call_attempts oracle (pc_retries (pacer u)) 0%nat (None, dst))
    as (Hn & Hretry & Hlast & _).
  destruct (pacer_Call _ _ _ _) as [[n s] err]. cbn [fst snd] in *.
  rewrite length_replicate. split; [done|]. split; [done|]. split.
  - intros j Hj. apply attemptVerdict_retry. by apply Hretry.
  - intros Hlt Hre. destruct Hlast as [->|Hlast]; [lia|].
    apply attemptVerdict_retry in Hre. simpl in Hlast. congruence.
Qed.

(** X2. Cancellation ends a paced call: the attempt that finds the
    context done is the last one, and the call returns an error. *)
Theorem paced_call_stops_when_cancelled {A : Type} u (oracle : nat → attempt A) req dst j :
  let res := pacedCall u oracle req dst in
  (j < length res.1.1)%nat →
  att_ctx (oracle j) ≠ None →
  length res.1.1 = S j ∧ res.2 ≠ None.
Proof.
  unfold pacedCall.
  pose proof (pacer_Call_attempts oracle (pc_retries (pacer u)) 0%nat (None, dst))
    as (Hn & Hretry & Hlast & Herr & _).
  destruct (pacer_Call _ _ _ _) as [[n s] err]. cbn [fst snd] in *.
  rewrite length_replicate. intros Hj Hctx.
  destruct (att_ctx (oracle j)) as [ce|] eqn:Hce; [|done].
  destruct (attemptVerdict_cancelled _ _ Hce) as [Hno Herrj].
  assert (n = S j) as ->.
  { destruct (decide (S j < n)%nat) as [Hlt|]; [|lia].
    specialize (Hretry j Hlt). simpl in Hretry. congruence. }
  split; [done|]. replace (0 + S j - 1)%nat with j in Herr by lia.
  rewrite Herr, Hno, Herrj. done.
Qed.

(** X3. A paced call returns without error only when its last attempt
    was answered without error, with a live context and a status
    outside the retry codes; the response and the decoded body it
    leaves behind are those of that attempt. *)
Theorem paced_call_success {A : Type} u (oracle : nat → attempt A) req dst :
  let res := pacedCall u oracle req dst in
  res.2 = None →
  ∃ status body,
    att_res (oracle (length res.1.1 - 1)%nat) = CallOk status body
    ∧ att_ctx (oracle (length res.1.1 - 1)%nat) = None
    ∧ (status ∉ retryErrorCodes)
    ∧ res.1.2 = (Some status, body).
Proof.
  unfold pacedCall.
  pose proof (pacer_Call_attempts oracle (pc_retries (pacer u)) 0%nat (None, dst))
    as (Hn & Hretry & Hlast & Herr & Hresp & Hbody).
  destruct (pacer_Call _ _ _ _) as [[n [resp body]] err]. cbn [fst snd] in *.
  rewrite length_replicate. replace (0 + n - 1)%nat with (n - 1)%nat in * by lia.
  set (a := oracle (n - 1)%nat) in *.
  intros ->.
  destruct ((attemptVerdict a).1) eqn:Hv; [done|].
  destruct (att_ctx a) as [ce|] eqn:Hctx.
  { destruct (attemptVerdict_cancelled _ _ Hctx) as [_ Hsome]. congruence. }
  rewrite (attemptVerdict_alive _ Hctx) in Herr.
  unfold attemptErr in Herr. destruct (att_res a) as [r e|status b] eqn:Hres; [done|].
  exists status, b. split; [done|]. split; [done|]. split.
  - intros Hin. assert (retryable a) as Hre.
    { split; [done|]. right. exists status. unfold attemptResp. by rewrite Hres. }
    apply attemptVerdict_retry in Hre. congruence.
  - unfold attemptResp in Hresp. rewrite Hres in Hresp. subst resp.
    by rewrite (Hbody status b eq_refl).
Qed.

Lemma paced_call_stops_when_cancelled_witness :
  (0 < length (pacedCall sampleService cancelledFind (GetFind "f.bin" "/dst")
                 (mkReadMetadataResponse [])).1.1)%nat
  ∧ att_ctx (cancelledFind 0%nat) ≠ None
  ∧ length (pacedCall sampleService cancelledFind (GetFind "f.bin" "/dst")
              (mkReadMetadataResponse [])).1.1 = 1%nat
  ∧ (pacedCall sampleService cancelledFind (GetFind "f.bin" "/dst")
       (mkReadMetadataResponse [])).2 ≠ None.
Proof.
  assert (0 < length (pacedCall sampleService cancelledFind (GetFind "f.bin" "/dst")
                        (mkReadMetadataResponse [])).1.1)%nat as Hlen
    by (vm_compute; lia).
  assert (att_ctx (cancelledFind 0%nat) ≠ None) as Hctx by (vm_compute; discriminate).
  split; [exact Hlen|]. split; [exact Hctx|].
  exact (paced_call_stops_when_cancelled sampleService cancelledFind (GetFind "f.bin" "/dst")
           (mkReadMetadataResponse []) 0%nat Hlen Hctx).
Defined.

Lemma paced_call_success_witness :
  (pacedCall sampleService (env_find flakyWorld) (GetFind "f.bin" "/dst")
     (mkReadMetadataResponse [])).2 = None
  ∧ ∃ status body,
      att_res (env_find flakyWorld 1%nat) = CallOk status body
      ∧ att_ctx (env_find flakyWorld 1%nat) = None
      ∧ (status ∉ retryErrorCodes)
      ∧ (pacedCall sampleService (env_find flakyWorld) (GetFind "f.bin" "/dst")
           (mkReadMetadataResponse [])).1.2 = (Some status, body).
Proof.
  assert ((pacedCall sampleService (env_find flakyWorld) (GetFind "f.bin" "/dst")
             (mkReadMetadataResponse [])).2 = None) as Hok by reflexivity.
  split; [exact Hok|].
  exact (paced_call_success sampleService (env_find flakyWorld) (GetFind "f.bin" "/dst")
           (mkReadMetadataResponse []) Hok).
Defined.

(** ** More on the runs of [UploadFile] *)

(** The commit and the clean-up of a complete upload, call by call. *)
Lemma finish_calls u env L destDir uploadedParts :
  Z.of_nat (length (manifestParts uploadedParts)) = L_totalParts L →
  let payload := filePayload L destDir (sort_Slice lessPartNo (manifestParts uploadedParts)) in
  let commit := pacedCall u (env_commit env) (PostFiles payload) () in
  let delete := pacedCall u (env_delete env) (DeleteSession (L_session L)) () in
  finish u env L destDir uploadedParts =
  match commit.2 with
  | Some e => (commit.1.1 ++ [EvBarClose], Returned (Some e))
  | None =>
      match delete.2 with
      | Some e => (commit.1.1 ++ delete.1.1 ++ [EvBarClose], Returned (Some e))
      | None => (commit.1.1 ++ delete.1.1 ++ [EvLog Info "file sent"; EvBarClose],
                 Returned None)
      end
  end.
Proof.
  intros Heq payload commit delete. unfold finish.
  rewrite bool_decide_eq_false_2 by (by intros ?).
  fold payload. subst commit delete.
  destruct (pacedCall u (env_commit env) _ _) as [[t_commit s] [e|]]; [done|].
  by destruct (pacedCall u (env_delete env) _ _) as [[t_delete s'] [e|]].
Qed.

Lemma requests_dispatch u env L :
  Forall (λ r, is_PostPart r = true) (requests (dispatchParts u env L).1).
Proof.
  apply Forall_forall. intros r Hr%elem_of_requests.
  apply elem_of_dispatch_trace in Hr as [?|(p & _ & Hr)]; [done|].
  apply partWorker_events in Hr as [-> _]. done.
Qed.

(** X4. The requests of a run come in a fixed order: existence checks,
    session lookups, part uploads, manifest commits, session deletes.
    No part is uploaded after the manifest has been posted, and the
    session is deleted only after it. *)
Theorem requests_in_order u env filePath destDir :
  let fileName := filepath_Base filePath in
  let session := sessionOf fileName destDir (lf_size (env_file env)) in
  ∃ finds lookups posts commits deletes payload,
    requests (UploadFile u env filePath destDir).1 =
      replicate finds (GetFind fileName destDir)
      ++ replicate lookups (GetSession session)
      ++ posts
      ++ replicate commits (PostFiles payload)
      ++ replicate deletes (DeleteSession session)
    ∧ Forall (λ r, is_PostPart r = true) posts
    ∧ ((0 < deletes)%nat → (0 < commits)%nat).
Proof.
  intros fileName session.
  destruct (prepare_requests u env filePath destDir) as (n & m & Hprep).
  fold fileName session in Hprep.
  destruct (prepare u env filePath destDir) as [t [out|L]] eqn:Hp; cbn [fst] in Hprep.
  { rewrite (UploadFile_early _ _ _ _ _ _ Hp). cbn [fst].
    exists n, m, [], 0%nat, 0%nat, (filePayload (mkLocals "" 0 "" session
                                       (mkUploadFileInfo []) ∅ 0 0 false) "" []).
    rewrite Hprep. simpl. rewrite app_nil_r. split; [done|]. split; [constructor|lia]. }
  rewrite (UploadFile_reach _ _ _ _ _ _ Hp). cbn [fst].
  rewrite !requests_app, Hprep.
  pose proof (requests_dispatch u env L) as Hposts.
  pose proof (prepare_reaches _ _ _ _ _ _ Hp) as (_ & _ & _ & _ & _ & _ & HL).
  assert (L_session L = session) as Hs by (by rewrite HL).
  destruct (decide (Z.of_nat (length (manifestParts (dispatchParts u env L).2))
                    = L_totalParts L)) as [Heq|Hne].
  - rewrite (finish_calls _ _ _ _ _ Heq). rewrite Hs.
    set (payload := filePayload _ _ _).
    destruct (pacedCall_trace u (env_commit env) (PostFiles payload) ()) as (k & Hk & Hc).
    destruct (pacedCall_trace u (env_delete env) (DeleteSession session) ()) as (j & Hj & Hd).
    destruct (pacedCall u (env_commit env) _ _) as [[t_commit s] err].
    destruct (pacedCall u (env_delete env) _ _) as [[t_delete s'] err'].
    cbn [fst snd] in *. subst t_commit t_delete.
    destruct err as [e|]; [|destruct err' as [e|]]; cbn [fst].
    + exists n, m, (requests (dispatchParts u env L).1), k, 0%nat, payload.
      rewrite requests_app, requests_replicate. simpl. rewrite <-!app_assoc.
      split; [done|]. split; [done|lia].
    + exists n, m, (requests (dispatchParts u env L).1), k, j, payload.
      rewrite !requests_app, !requests_replicate. simpl. rewrite app_nil_r, <-!app_assoc.
      split; [done|]. split; [done|lia].
    + exists n, m, (requests (dispatchParts u env L).1), k, j, payload.
      rewrite !requests_app, !requests_replicate. simpl. rewrite app_nil_r, <-!app_assoc.
      split; [done|]. split; [done|lia].
  - rewrite (finish_incomplete _ _ _ _ _ Hne). cbn [fst].
    exists n, m, (requests (dispatchParts u env L).1), 0%nat, 0%nat,
      (filePayload L destDir []).
    simpl. rewrite !app_nil_r, <-!app_assoc. split; [done|]. split; [done|lia].
Qed.

(** X5. When the existence check fails, [UploadFile] returns its error:
    the bar is aborted, nothing is counted as existing, and no request
    other than the existence check is sent. *)
Theorem existence_check_error u env filePath destDir e :
  let f := env_file env in
  let fileName := filepath_Base filePath in
  lf_open f = None →
  (file_Read f 512).2 = None →
  (checkFileExists u env fileName destDir).2.2 = Some e →
  let run := UploadFile u env filePath destDir in
  run.2 = Returned (Some e)
  ∧ (∃ n, (1 ≤ n)%nat ∧ requests run.1 = replicate n (GetFind fileName destDir))
  ∧ EvBarAbort ∈ run.1
  ∧ (∀ p, progressAfter run.1 p = p).
Proof.
  intros f fileName Hopen Hread Herr run.
  destruct (checkFileExists_trace u env fileName destDir) as (n & Hn & Ht).
  assert (run = (EvAddBar (lf_size f)
                   :: (EvLog Debug "checking file exists"
                         :: replicate n (EvHTTP (GetFind fileName destDir)))
                   ++ [EvBarAbort; EvLog Error "check file exists failed"; EvBarClose],
                 Returned (Some e))) as ->.
  { subst run. unfold UploadFile, prepare. fold f. rewrite Hopen.
    destruct (file_Read f 512) as [k [e'|]]; [done|]. fold fileName.
    destruct (checkFileExists u env fileName destDir) as [t [exists_ err]].
    simpl in Herr, Ht. by simplify_eq. }
  cbn [fst snd]. split; [done|]. split.
  { exists n. split; [done|].
    change (requests (EvAddBar ?a :: (EvLog ?l ?m :: ?t) ++ ?t')) with (requests (t ++ t')).
    rewrite requests_app, requests_replicate. simpl. by rewrite app_nil_r. }
  split.
  { apply list_elem_of_further. rewrite elem_of_app. right. apply list_elem_of_here. }
  intros p.
  change (progressAfter (EvAddBar ?a :: (EvLog ?l ?m :: ?t) ++ ?t') p)
    with (progressAfter (t ++ t') p).
  by rewrite progressAfter_app, progressAfter_requests.
Qed.

(** The refused existence check: one request, the error returned. *)
Lemma existence_check_error_witness :
  lf_open (env_file refusedWorld) = None
  ∧ (file_Read (env_file refusedWorld) 512).2 = None
  ∧ (checkFileExists sampleService refusedWorld "f.bin" "/dst").2.2
    = Some (mkError "403 Forbidden" false)
  ∧ (UploadFile sampleService refusedWorld "/data/f.bin" "/dst").2
    = Returned (Some (mkError "403 Forbidden" false))
  ∧ (∃ n, (1 ≤ n)%nat
          ∧ requests (UploadFile sampleService refusedWorld "/data/f.bin" "/dst").1
            = replicate n (GetFind "f.bin" "/dst"))
  ∧ EvBarAbort ∈ (UploadFile sampleService refusedWorld "/data/f.bin" "/dst").1
  ∧ (∀ p, progressAfter (UploadFile sampleService refusedWorld "/data/f.bin" "/dst").1 p = p).
Proof.
  assert (lf_open (env_file refusedWorld) = None) as Hopen by reflexivity.
  assert ((file_Read (env_file refusedWorld) 512).2 = None) as Hread by reflexivity.
  assert ((checkFileExists sampleService refusedWorld (filepath_Base "/data/f.bin") "/dst").2.2
          = Some (mkError "403 Forbidden" false)) as Hcheck by reflexivity.
  split; [exact Hopen|]. split; [exact Hread|]. split; [exact Hcheck|].
  exact (existence_check_error sampleService refusedWorld "/data/f.bin" "/dst" _
           Hopen Hread Hcheck).
Defined.

Lemma UploadFile_nil u env filePath destDir :
  let fileName := filepath_Base filePath in
  let run := UploadFile u env filePath destDir in
  run.2 = Returned None →
  ((checkFileExists u env fileName destDir).2 = (true, None)
   ∧ EvAddExisting (lf_size (env_file env)) ∈ run.1
   ∧ committed run.1 = [])
  ∨ (∃ t L,
       prepare u env filePath destDir = (t, inr L)
       ∧ Z.of_nat (length (manifestParts (dispatchParts u env L).2)) = L_totalParts L
       ∧ committed run.1 ≠ []
       ∧ DeleteSession (L_session L) ∈ requests run.1
       ∧ EvLog Info "file sent" ∈ run.1).
Proof.
  intros fileName run Hnil. subst run.
  destruct (prepare u env filePath destDir) as [t [out|L]] eqn:Hp.
  - left. rewrite (UploadFile_early _ _ _ _ _ _ Hp) in *. cbn [fst snd] in *. subst out.
    pose proof (committed_prepare u env filePath destDir) as Hc.
    rewrite Hp in Hc. cbn [fst] in Hc.
    unfold prepare in Hp. fold fileName in Hp.
    destruct (lf_open _); [done|].
    destruct (file_Read _ _) as [k [e|]]; [done|].
    destruct (checkFileExists u env fileName destDir) as [t_exists [exists_ [e|]]]; [done|].
    destruct exists_.
    + simplify_eq. split; [done|]. split; [|done].
      apply list_elem_of_further. rewrite elem_of_app. right. apply list_elem_of_here.
    + destruct (lookupSession _ _ _ _) as [[t_session uploadFile] existingParts].
      case_bool_decide; [done|]. simpl in Hp.
      destruct (_ || _); [done|].
      destruct (inheritSettings _ _). by destruct (_ && _).
  - right. exists t, L. split; [done|].
    rewrite (UploadFile_reach _ _ _ _ _ _ Hp) in *. cbn [fst snd] in *.
    destruct (decide (Z.of_nat (length (manifestParts (dispatchParts u env L).2))
                      = L_totalParts L)) as [Heq|Hne];
      [|by rewrite (finish_incomplete _ _ _ _ _ Hne) in Hnil].
    split; [done|].
    rewrite (finish_calls _ _ _ _ _ Heq) in *.
    set (payload := filePayload _ _ _) in *.
    destruct (pacedCall_trace u (env_commit env) (PostFiles payload) ()) as (k & Hk & Hc).
    destruct (pacedCall_trace u (env_delete env) (DeleteSession (L_session L)) ())
      as (j & Hj & Hd).
    destruct (pacedCall u (env_commit env) _ _) as [[t_commit s] err].
    destruct (pacedCall u (env_delete env) _ _) as [[t_delete s'] err'].
    cbn [fst snd] in *. subst t_commit t_delete.
    destruct err as [e|]; [done|]. destruct err' as [e|]; [done|]. cbn [fst].
    split; [|split].
    + rewrite !committed_app, committed_replicate. destruct k; [lia|].
      intros Hnil'. apply app_eq_nil in Hnil' as [_ Hnil'].
      apply app_eq_nil in Hnil' as [_ Hnil']. by apply app_eq_nil in Hnil' as [? _].
    + apply elem_of_requests. rewrite !elem_of_app. do 3 right. left.
      apply elem_of_replicate. split; [done|lia].
    + rewrite !elem_of_app. do 4 right. apply list_elem_of_here.
Qed.

(** X6. [UploadFile] returns nil in two cases only: the existence check
    found the file, which is then counted as existing and nothing else
    is sent; or every planned part was collected, the manifest was
    posted and the session delete was sent, both without error. *)
Theorem nil_return_means_stored u env filePath destDir :
  let fileName := filepath_Base filePath in
  let run := UploadFile u env filePath destDir in
  run.2 = Returned None →
  ((checkFileExists u env fileName destDir).2 = (true, None)
   ∧ EvAddExisting (lf_size (env_file env)) ∈ run.1
   ∧ committed run.1 = [])
  ∨ (∃ t L,
       prepare u env filePath destDir = (t, inr L)
       ∧ Z.of_nat (length (manifestParts (dispatchParts u env L).2)) = L_totalParts L
       ∧ committed run.1 ≠ []
       ∧ DeleteSession (L_session L) ∈ requests run.1
       ∧ EvLog Info "file sent" ∈ run.1).
Proof. exact (UploadFile_nil u env filePath destDir). Qed.

(** X7. The session is deleted only after the manifest has been posted
    without error. A complete upload whose commit fails returns that
    error without a delete; one whose delete fails returns the delete
    error although the manifest has been posted. *)
Theorem cleanup_follows_commit u env filePath destDir t L :
  prepare u env filePath destDir = (t, inr L) →
  Z.of_nat (length (manifestParts (dispatchParts u env L).2)) = L_totalParts L →
  let run := UploadFile u env filePath destDir in
  let payload := filePayload L destDir
                   (sort_Slice lessPartNo (manifestParts (dispatchParts u env L).2)) in
  let commit := pacedCall u (env_commit env) (PostFiles payload) () in
  let delete := pacedCall u (env_delete env) (DeleteSession (L_session L)) () in
  payload ∈ committed run.1
  ∧ (DeleteSession (L_session L) ∈ requests run.1 ↔ commit.2 = None)
  ∧ run.2 = Returned (match commit.2 with Some e => Some e | None => delete.2 end).
Proof.
  intros Hp Heq run payload commit delete. subst run.
  pose proof (prepare_requests u env filePath destDir) as (n & m & Hprep).
  rewrite Hp in Hprep. cbn [fst] in Hprep.
  pose proof (requests_dispatch u env L) as Hposts.
  rewrite (UploadFile_reach _ _ _ _ _ _ Hp). cbn [fst snd].
  rewrite (finish_calls _ _ _ _ _ Heq). fold payload commit delete.
  destruct (pacedCall_trace u (env_commit env) (PostFiles payload) ()) as (k & Hk & Hc).
  destruct (pacedCall_trace u (env_delete env) (DeleteSession (L_session L)) ())
    as (j & Hj & Hd).
  fold commit in Hc. fold delete in Hd.
  assert (∀ tail, payload ∈ committed (t ++ (dispatchParts u env L).1 ++ commit.1.1 ++ tail))
    as Hin.
  { intros tail. apply elem_of_committed. rewrite !elem_of_app. do 2 right. left.
    rewrite Hc. apply elem_of_replicate. split; [done|lia]. }
  assert (∀ tail, DeleteSession (L_session L)
                    ∈ requests (t ++ (dispatchParts u env L).1 ++ commit.1.1 ++ tail)
                  → EvHTTP (DeleteSession (L_session L)) ∈ tail) as Hdel.
  { intros tail Hr. apply elem_of_requests in Hr.
    rewrite !elem_of_app in Hr. destruct Hr as [Hr|[Hr|[Hr|Hr]]]; [| | |done].
    - apply elem_of_requests in Hr. rewrite Hprep, elem_of_app in Hr.
      destruct Hr as [Hr|Hr]; by apply elem_of_replicate_inv in Hr.
    - apply elem_of_requests in Hr.
      by pose proof (proj1 (Forall_forall _ _) Hposts _ Hr).
    - rewrite Hc in Hr. by apply elem_of_replicate_inv in Hr. }
  destruct (commit.2) as [e|] eqn:Hce; [|destruct (delete.2) as [e|] eqn:Hde]; cbn [fst snd].
  - split; [apply Hin|]. split; [|done]. split; [|done].
    intros Hr%Hdel. apply list_elem_of_singleton in Hr. done.
  - split; [apply Hin|]. split; [|done]. split; [done|]. intros _.
    apply elem_of_requests. rewrite !elem_of_app. do 3 right. left.
    rewrite Hd. apply elem_of_replicate. split; [done|lia].
  - split; [apply Hin|]. split; [|done]. split; [done|]. intros _.
    apply elem_of_requests. rewrite !elem_of_app. do 3 right. left.
    rewrite Hd. apply elem_of_replicate. split; [done|lia].
Qed.

(** X8. A posted manifest describes the local file: its name is the
    last element of the path, its type is "file", its path the
    destination, its size and MIME type those of the file, and it lists
    exactly as many parts as were planned. *)
Theorem manifest_describes_file u env filePath destDir payload :
  payload ∈ committed (UploadFile u env filePath destDir).1 →
  py_Name payload = filepath_Base filePath
  ∧ py_Type payload = "file"
  ∧ py_Path payload = destDir
  ∧ py_Size payload = lf_size (env_file env)
  ∧ py_MimeType payload = lf_mime (env_file env)
  ∧ Z.of_nat (length (py_Parts payload)) = totalParts (lf_size (env_file env)) (partSize u).
Proof.
  intros Hin.
  assert (committed (UploadFile u env filePath destDir).1 ≠ []) as Hne.
  { intros Hnil. rewrite Hnil in Hin. by apply elem_of_nil in Hin. }
  apply committed_payload in Hin as (t & L & Hp & ->).
  pose proof (prepare_reaches _ _ _ _ _ _ Hp) as (_ & _ & _ & _ & _ & _ & HL).
  rewrite committed_run, Hp in Hne. cbn [snd] in Hne.
  assert (Z.of_nat (length (manifestParts (dispatchParts u env L).2)) = L_totalParts L)
    as Heq.
  { destruct (decide (Z.of_nat (length (manifestParts (dispatchParts u env L).2))
                      = L_totalParts L)) as [|Hx]; [done|].
    by rewrite (finish_incomplete _ _ _ _ _ Hx) in Hne. }
  unfold filePayload. cbn [py_Name py_Type py_Path py_Size py_MimeType py_Parts].
  unfold lessPartNo.
  rewrite (Permutation_length (sort_Slice_Permutation fp_PartNo _)), Heq.
  rewrite HL. done.
Qed.

(** The 2500-byte file, all parts acknowledged: nil is returned after
    the manifest and the session delete. *)
Lemma nil_return_means_stored_witness :
  (UploadFile sampleService freshWorld "/data/f.bin" "/dst").2 = Returned None
  ∧ (((checkFileExists sampleService freshWorld "f.bin" "/dst").2 = (true, None)
      ∧ EvAddExisting 2500 ∈ (UploadFile sampleService freshWorld "/data/f.bin" "/dst").1
      ∧ committed (UploadFile sampleService freshWorld "/data/f.bin" "/dst").1 = [])
     ∨ (∃ t L,
          prepare sampleService freshWorld "/data/f.bin" "/dst" = (t, inr L)
          ∧ Z.of_nat (length (manifestParts (dispatchParts sampleService freshWorld L).2))
            = L_totalParts L
          ∧ committed (UploadFile sampleService freshWorld "/data/f.bin" "/dst").1 ≠ []
          ∧ DeleteSession (L_session L)
              ∈ requests (UploadFile sampleService freshWorld "/data/f.bin" "/dst").1
          ∧ EvLog Info "file sent"
              ∈ (UploadFile sampleService freshWorld "/data/f.bin" "/dst").1)).
Proof.
  assert ((UploadFile sampleService freshWorld "/data/f.bin" "/dst").2 = Returned None)
    as Hnil by (vm_compute; reflexivity).
  split; [exact Hnil|].
  exact (nil_return_means_stored sampleService freshWorld "/data/f.bin" "/dst" Hnil).
Defined.

(** The same run: the manifest is posted, then the session deleted. *)
Lemma cleanup_follows_commit_witness :
  ∃ t L,
    prepare sampleService freshWorld "/data/f.bin" "/dst" = (t, inr L)
    ∧ Z.of_nat (length (manifestParts (dispatchParts sampleService freshWorld L).2))
      = L_totalParts L
    ∧ DeleteSession (L_session L)
        ∈ requests (UploadFile sampleService freshWorld "/data/f.bin" "/dst").1
    ∧ (UploadFile sampleService freshWorld "/data/f.bin" "/dst").2 = Returned None.
Proof.
  eexists _, _. split; [reflexivity|].
  match goal with
  | |- ?complete ∧ _ =>
      assert complete as Hcomplete by (vm_compute; reflexivity)
  end.
  split; [exact Hcomplete|].
  destruct (cleanup_follows_commit sampleService freshWorld "/data/f.bin" "/dst" _ _
              eq_refl Hcomplete) as (_ & Hdelete & Hout).
  split; [apply Hdelete; vm_compute; reflexivity|].
  rewrite Hout. vm_compute. reflexivity.
Defined.

(** The manifest of the same run. *)
Lemma manifest_describes_file_witness :
  ∃ payload,
    payload ∈ committed (UploadFile sampleService freshWorld "/data/f.bin" "/dst").1
    ∧ py_Name payload = "f.bin"
    ∧ py_Type payload = "file"
    ∧ py_Path payload = "/dst"
    ∧ py_Size payload = 2500
    ∧ py_MimeType payload = "application/octet-stream"
    ∧ Z.of_nat (length (py_Parts payload)) = 3.
Proof.
  eexists.
  match goal with
  | |- ?posted ∧ _ =>
      assert posted as Hposted by (vm_compute; apply list_elem_of_here)
  end.
  split; [exact Hposted|].
  exact (manifest_describes_file sampleService freshWorld "/data/f.bin" "/dst" _ Hposted).
Defined.

(** ** The goroutine of a file *)

(** X16. The goroutine of a file removes a local file only when the
    service is configured to delete after upload, only the file it
    gave to [UploadFile], and only after [UploadFile] returned nil:
    after the manifest was posted and the session deleted, or, with
    nothing uploaded, when the existence check found a file of that
    name at the destination. *)
Theorem removal_follows_nil_return u env removeErr fullPath destDir path :
  let run := UploadFile u env fullPath destDir in
  TRemove path ∈ uploadTask u env removeErr fullPath destDir →
  path = fullPath
  ∧ deleteAfterUpload u = true
  ∧ run.2 = Returned None
  ∧ (((checkFileExists u env (filepath_Base fullPath) destDir).2 = (true, None)
      ∧ committed run.1 = [])
     ∨ (committed run.1 ≠ []
        ∧ ∃ session, DeleteSession session ∈ requests run.1)).
Proof.
  intros run Hin. unfold uploadTask in Hin. fold run in Hin.
  pose proof (UploadFile_nil u env fullPath destDir) as Hnil. fold run in Hnil.
  cbv zeta in Hnil.
  destruct run as [t out]. cbn [fst snd] in *.
  rewrite elem_of_app in Hin. destruct Hin as [Hin|Hin].
  { apply list_elem_of_fmap in Hin as (e & He & _). done. }
  destruct out as [[e|]|msg|].
  - apply list_elem_of_singleton in Hin. done.
  - destruct (deleteAfterUpload u) eqn:Hdel; [|by apply elem_of_nil in Hin].
    assert (path = fullPath) as ->.
    { destruct removeErr; apply elem_of_cons in Hin as [Hin|Hin];
        try (by simplify_eq); by apply list_elem_of_singleton in Hin. }
    split; [done|]. split; [done|]. split; [done|].
    destruct (Hnil eq_refl) as [(Hex & _ & Hc)|(t' & L & _ & _ & Hc & Hd & _)].
    + by left.
    + right. split; [done|]. by exists (L_session L).
  - by apply elem_of_nil in Hin.
  - by apply elem_of_nil in Hin.
Qed.

(** A file that is already at the destination is removed although
    nothing was uploaded. *)
Lemma removal_follows_nil_return_witness :
  TRemove "/data/f.bin" ∈ uploadTask movingService existsWorld None "/data/f.bin" "/dst"
  ∧ "/data/f.bin" = "/data/f.bin"
  ∧ deleteAfterUpload movingService = true
  ∧ (UploadFile movingService existsWorld "/data/f.bin" "/dst").2 = Returned None
  ∧ (((checkFileExists movingService existsWorld "f.bin" "/dst").2 = (true, None)
      ∧ committed (UploadFile movingService existsWorld "/data/f.bin" "/dst").1 = [])
     ∨ (committed (UploadFile movingService existsWorld "/data/f.bin" "/dst").1 ≠ []
        ∧ ∃ session,
            DeleteSession session
              ∈ requests (UploadFile movingService existsWorld "/data/f.bin" "/dst").1)).
Proof.
  assert (TRemove "/data/f.bin"
            ∈ uploadTask movingService existsWorld None "/data/f.bin" "/dst") as Hremoved.
  { unfold uploadTask.
    destruct (UploadFile movingService existsWorld "/data/f.bin" "/dst") as [t out] eqn:Hrun.
    assert (out = Returned None) as -> by (vm_compute in Hrun; congruence).
    rewrite elem_of_app. right. apply list_elem_of_here. }
  split; [exact Hremoved|].
  exact (removal_follows_nil_return movingService existsWorld None
           "/data/f.bin" "/dst" _ Hremoved).
Defined.

(** *** The session answer as a map *)

Lemma indexParts_lookup (parts : list PartFile) (partNo : Z) :
  indexParts parts !! partNo = last (filter (λ part, pf_PartNo part = partNo) parts).
Proof.
  unfold indexParts.
  assert (∀ (m : gmap Z PartFile),
            foldl (λ m part, <[pf_PartNo part := part]> m) m parts !! partNo
            = match last (filter (λ part, pf_PartNo part = partNo) parts) with
              | Some part => Some part
              | None => m !! partNo
              end) as Hgen.
  { induction parts as [|part parts IH]; intros m; [done|].
    cbn [foldl]. rewrite IH, filter_cons.
    destruct (decide (pf_PartNo part = partNo)) as [Heq|Hne].
    - rewrite last_cons. destruct (last (filter _ parts)); [done|].
      by rewrite <-Heq, lookup_insert_eq.
    - destruct (last (filter _ parts)); [done|]. by rewrite lookup_insert_ne. }
  rewrite Hgen. by destruct (last _).
Qed.

(** X9. [existingParts] maps a part number to the last record of the
    session answer that carries it, and has no entry for a number that
    no record carries. *)
Theorem existingParts_last_wins (parts : list PartFile) (partNo : Z) :
  indexParts parts !! partNo = last (filter (λ part, pf_PartNo part = partNo) parts)
  ∧ (indexParts parts !! partNo = None ↔ ∀ part, part ∈ parts → pf_PartNo part ≠ partNo).
Proof.
  split; [apply indexParts_lookup|].
  rewrite indexParts_lookup, last_None. split.
  - intros Hnil part Hin Heq.
    assert (part ∈ filter (λ part, pf_PartNo part = partNo) parts) as Hf
      by (by apply list_elem_of_filter).
    rewrite Hnil in Hf. by apply elem_of_nil in Hf.
  - intros Hnone. apply list_empty_no_elem. intros part [Heq Hin]%list_elem_of_filter.
    by apply (Hnone part).
Qed.

Lemma indexParts_Some parts partNo rec :
  indexParts parts !! partNo = Some rec → rec ∈ parts ∧ pf_PartNo rec = partNo.
Proof.
  rewrite indexParts_lookup. intros Hl%last_Some_elem_of.
  apply list_elem_of_filter in Hl as [? ?]. done.
Qed.

Lemma partWorker_record env L partNumber start end_ rec :
  (partWorker env L partNumber start end_).2 = Some rec →
  L_existingParts L !! Int64.add partNumber 1 = Some rec
  ∨ (L_existingParts L !! Int64.add partNumber 1 = None
     ∧ pw_call (env_part env partNumber) = CallOk 201 rec
     ∧ postedParts (partWorker env L partNumber start end_).1 = [Int64.add partNumber 1]).
Proof.
  unfold partWorker.
  destruct (pw_open _); [done|].
  destruct (L_existingParts L !! _) eqn:Hex; [intros; simplify_eq/=; by left|].
  destruct (pw_seek _); [done|].
  destruct (pw_call _) as [resp err|status partFile]; [done|].
  case_bool_decide; [|done]. intros; simplify_eq/=. by right.
Qed.

(** X10. Every record that reaches the manifest stage is either a
    record of the session answer, reused for the planned part that has
    its number, or the body of a 201 answer to a part upload of this
    run. *)
Theorem records_come_from_session_or_201 u env filePath destDir t L rec :
  prepare u env filePath destDir = (t, inr L) →
  rec ∈ (dispatchParts u env L).2 →
  let run := UploadFile u env filePath destDir in
  ∃ p, p ∈ plannedParts (L_fileSize L) (partSize u)
    ∧ ((rec ∈ uf_Parts (L_uploadFile L) ∧ pf_PartNo rec = p.1 + 1
        ∧ (p.1 + 1) ∉ postedParts run.1)
       ∨ (pw_call (env_part env p.1) = CallOk 201 rec
          ∧ (p.1 + 1) ∈ postedParts run.1)).
Proof.
  intros Hp (p & Hplanned & Hrec)%elem_of_delivered run.
  exists p. split; [done|].
  pose proof (prepare_reaches _ _ _ _ _ _ Hp) as (_ & _ & _ & _ & _ & _ & HL).
  assert (L_existingParts L = ∅ ∨ L_existingParts L = indexParts (uf_Parts (L_uploadFile L)))
    as Hmap.
  { rewrite HL. cbn [L_existingParts L_uploadFile]. unfold lookupSession.
    case_bool_decide; [|by left].
    destruct (pacedCall _ _ _ _) as [[t' [resp uploadFile]] [e|]]; [by left|by right]. }
  subst run. rewrite postedParts_run, Hp. cbn [snd].
  pose proof (planned_number _ _ _ Hplanned) as Hno.
  apply partWorker_record in Hrec as [Hex|(Hnone & Hcall & Hposted)]; rewrite Hno in *.
  - left. destruct Hmap as [Hmap|Hmap]; rewrite Hmap in Hex; [done|].
    apply indexParts_Some in Hex as [? ?]. split; [done|]. split; [done|].
    rewrite postedParts_dispatch. intros (q & Hin & Hq)%list_elem_of_bind.
    destruct (partWorker_requests env L q.1 q.2.1 q.2.2) as [[_ H1]|(_ & H1 & Hqn & _)];
      simpl in H1; rewrite H1 in Hin; [by apply elem_of_nil in Hin|].
    apply list_elem_of_singleton in Hin. rewrite <-Hin in Hqn.
    rewrite Hmap in Hqn.
    pose proof (indexParts_lookup (uf_Parts (L_uploadFile L)) (p.1 + 1)) as Hl.
    rewrite Hqn in Hl. symmetry in Hl. apply last_None in Hl.
    assert (rec ∈ filter (λ part, pf_PartNo part = p.1 + 1) (uf_Parts (L_uploadFile L)))
      as Hf by (by apply list_elem_of_filter).
    rewrite Hl in Hf. by apply elem_of_nil in Hf.
  - right. split; [done|]. rewrite postedParts_dispatch.
    apply list_elem_of_bind. exists p. split; [|done]. rewrite Hposted. apply list_elem_of_here.
Qed.

(** X11. With sizes that fit the 64-bit range, the body of every part
    upload is the range the plan gives its part number: it starts at
    [(partNo - 1) * partSize] and is [partSize] bytes long, or what is
    left of the file if that is less; it is never empty. *)
Theorem posted_range_matches_number u env filePath destDir
    session name partNo channelId encrypted start len :
  let fileSize := lf_size (env_file env) in
  0 ≤ fileSize → 0 < partSize u → fileSize + partSize u ≤ Int64.max_int →
  EvHTTP (PostPart session name partNo channelId encrypted start len)
    ∈ (UploadFile u env filePath destDir).1 →
  1 ≤ partNo ≤ ceilDiv fileSize (partSize u)
  ∧ start = (partNo - 1) * partSize u
  ∧ len = Z.min (partSize u) (fileSize - start)
  ∧ 0 < len.
Proof.
  intros fileSize Hsize Hpart Hfit Hin.
  assert (partNo ∈ postedParts (UploadFile u env filePath destDir).1) as Hposted
    by (apply elem_of_postedParts; eauto 10).
  rewrite postedParts_run in Hposted.
  destruct (prepare u env filePath destDir) as [t [out|L]] eqn:Hp; cbn [snd] in Hposted.
  { by apply elem_of_nil in Hposted. }
  pose proof (prepare_reaches _ _ _ _ _ _ Hp) as (Hopen & Hread & _ & _ & _ & _ & HL).
  assert (L_fileSize L = fileSize) as Hfs by (by rewrite HL).
  rewrite (UploadFile_reach _ _ _ _ _ _ Hp) in Hin. cbn [fst] in Hin.
  rewrite !elem_of_app in Hin. destruct Hin as [Hin|[Hin|Hin]].
  - assert (partNo ∈ postedParts t) as Hbad by (apply elem_of_postedParts; eauto 10).
    pose proof (postedParts_prepare u env filePath destDir) as Hnil.
    rewrite Hp in Hnil. cbn [fst] in Hnil. rewrite Hnil in Hbad.
    by apply elem_of_nil in Hbad.
  - apply elem_of_dispatch_trace in Hin as [?|(p & Hplanned & Hin)]; [done|].
    apply partWorker_events in Hin as [Heq _].
    pose proof (planned_number _ _ _ Hplanned) as Hno.
    rewrite Hfs in Hplanned.
    apply elem_of_plannedParts in Hplanned as [Hi Hr].
    rewrite totalParts_ceil in Hi by done.
    rewrite (partRange_exact _ _ Hsize Hpart Hfit) in Hr by done.
    pose proof (ceilDiv_bounds fileSize (partSize u) Hsize Hpart) as (Hn0 & Hn1 & Hn2).
    simpl in Hn0, Hn1, Hn2.
    injection Heq as _ _ -> _ _ -> ->. rewrite Hno, Hr. cbn [fst snd].
    assert (p.1 * partSize u < fileSize) as Hlt by nia.
    unfold Int64.sub. rewrite Int64_wrap_id by (int64_consts; nia).
    replace (p.1 + 1 - 1) with p.1 by lia.
    split; [lia|]. split; [done|]. split; lia.
  - assert (partNo ∈ postedParts (finish u env L destDir (dispatchParts u env L).2).1)
      as Hbad by (apply elem_of_postedParts; eauto 10).
    rewrite postedParts_finish in Hbad. by apply elem_of_nil in Hbad.
Qed.

(** The resumed upload: the record of part 2 comes from the session,
    and no request is made for it. *)
Lemma records_come_from_session_or_201_witness :
  ∃ t L,
    prepare sampleService resumedWorld "/data/f.bin" "/dst" = (t, inr L)
    ∧ samplePart 2 ∈ (dispatchParts sampleService resumedWorld L).2
    ∧ ∃ p, p ∈ plannedParts (L_fileSize L) (partSize sampleService)
        ∧ ((samplePart 2 ∈ uf_Parts (L_uploadFile L)
            ∧ pf_PartNo (samplePart 2) = p.1 + 1
            ∧ (p.1 + 1)
                ∉ postedParts (UploadFile sampleService resumedWorld "/data/f.bin" "/dst").1)
           ∨ (pw_call (env_part resumedWorld p.1) = CallOk 201 (samplePart 2)
              ∧ (p.1 + 1)
                  ∈ postedParts
                      (UploadFile sampleService resumedWorld "/data/f.bin" "/dst").1)).
Proof.
  eexists _, _. split; [reflexivity|].
  match goal with
  | |- ?collected ∧ _ =>
      assert collected as Hcollected by (vm_compute; apply list_elem_of_here)
  end.
  split; [exact Hcollected|].
  exact (records_come_from_session_or_201 sampleService resumedWorld "/data/f.bin" "/dst"
           _ _ _ eq_refl Hcollected).
Defined.

(** The second part of the 2500-byte file. *)
Lemma posted_range_matches_number_witness :
  0 ≤ lf_size (env_file freshWorld)
  ∧ 0 < partSize sampleService
  ∧ lf_size (env_file freshWorld) + partSize sampleService ≤ Int64.max_int
  ∧ EvHTTP (PostPart (md5_Sum "f.bin:/dst:2500") "f.bin" 2 7 false 1000 1000)
      ∈ (UploadFile sampleService freshWorld "/data/f.bin" "/dst").1
  ∧ 1 ≤ 2 ≤ ceilDiv (lf_size (env_file freshWorld)) (partSize sampleService)
  ∧ 1000 = (2 - 1) * partSize sampleService
  ∧ 1000 = Z.min (partSize sampleService) (lf_size (env_file freshWorld) - 1000)
  ∧ 0 < 1000.
Proof.
  assert (0 ≤ lf_size (env_file freshWorld)) as Hsize by (vm_compute; discriminate).
  assert (0 < partSize sampleService) as Hpart by reflexivity.
  assert (lf_size (env_file freshWorld) + partSize sampleService ≤ Int64.max_int) as Hfit
    by (vm_compute; discriminate).
  assert (EvHTTP (PostPart (md5_Sum "f.bin:/dst:2500") "f.bin" 2 7 false 1000 1000)
            ∈ (UploadFile sampleService freshWorld "/data/f.bin" "/dst").1) as Hsent.
  { vm_compute. do 8 apply list_elem_of_further. apply list_elem_of_here. }
  split; [exact Hsize|]. split; [exact Hpart|]. split; [exact Hfit|].
  split; [exact Hsent|].
  exact (posted_range_matches_number sampleService freshWorld "/data/f.bin" "/dst"
           _ _ _ _ _ _ _ Hsize Hpart Hfit Hsent).
Defined.

(** *** Small files and degenerate settings *)

Lemma prepare_trace u env filePath destDir t L :
  prepare u env filePath destDir = (t, inr L) →
  let f := env_file env in
  let fileName := filepath_Base filePath in
  t = EvAddBar (lf_size f) :: (checkFileExists u env fileName destDir).1
      ++ (lookupSession u env (sessionOf fileName destDir (lf_size f)) (lf_size f)).1.1.
Proof.
  unfold prepare. intros H.
  destruct (lf_open _); [done|].
  destruct (file_Read _ _) as [k [e|]]; [done|].
  destruct (checkFileExists _ _ _ _) as [t_exists [exists_ [e|]]]; [done|].
  destruct exists_; [done|].
  destruct (lookupSession _ _ _ _) as [[t_session uploadFile] existingParts].
  case_bool_decide; [done|]. simpl in H.
  destruct (_ || _); [done|].
  destruct (inheritSettings _ _). destruct (_ && _); by simplify_eq.
Qed.

Lemma requests_finish u env L destDir uploadedParts :
  ∃ commits deletes payload,
    requests (finish u env L destDir uploadedParts).1 =
    replicate commits (PostFiles payload) ++ replicate deletes (DeleteSession (L_session L)).
Proof.
  destruct (decide (Z.of_nat (length (manifestParts uploadedParts)) = L_totalParts L))
    as [Heq|Hne].
  - rewrite (finish_calls _ _ _ _ _ Heq).
    set (payload := filePayload _ _ _).
    destruct (pacedCall_trace u (env_commit env) (PostFiles payload) ()) as (k & _ & Hc).
    destruct (pacedCall_trace u (env_delete env) (DeleteSession (L_session L)) ())
      as (j & _ & Hd).
    destruct (pacedCall u (env_commit env) _ _) as [[t_commit s] err].
    destruct (pacedCall u (env_delete env) _ _) as [[t_delete s'] err'].
    cbn [fst snd] in *. subst t_commit t_delete.
    destruct err as [e|]; [|destruct err' as [e|]]; cbn [fst].
    + exists k, 0%nat, payload. rewrite requests_app, requests_replicate. done.
    + exists k, j, payload. rewrite !requests_app, !requests_replicate. simpl.
      by rewrite app_nil_r.
    + exists k, j, payload. rewrite !requests_app, !requests_replicate. simpl.
      by rewrite app_nil_r.
  - rewrite (finish_incomplete _ _ _ _ _ Hne). by exists 0%nat, 0%nat, (filePayload L destDir []).
Qed.

(** X12. A file no larger than one part is uploaded without a session
    lookup: one part is planned, the whole file; no record is reused,
    and the channel and the encryption flag are the configured ones. *)
Theorem small_file_single_part u env filePath destDir t L :
  prepare u env filePath destDir = (t, inr L) →
  0 < lf_size (env_file env) ≤ partSize u →
  partSize u ≤ Int64.max_int →
  let run := UploadFile u env filePath destDir in
  (∀ session, GetSession session ∉ requests run.1)
  ∧ plannedParts (L_fileSize L) (partSize u) = [(0, (0, lf_size (env_file env)))]
  ∧ L_existingParts L = ∅
  ∧ L_channelID L = channelID u
  ∧ L_encryptFile L = encryptFiles u.
Proof.
  intros Hp [Hpos Hle] Hmax run.
  pose proof (prepare_reaches _ _ _ _ _ _ Hp) as (_ & _ & _ & _ & _ & _ & HL).
  pose proof (prepare_trace _ _ _ _ _ _ Hp) as Ht. simpl in Ht.
  assert (lookupSession u env
            (sessionOf (filepath_Base filePath) destDir (lf_size (env_file env)))
            (lf_size (env_file env)) = ([], mkUploadFileInfo [], ∅)) as Hlook.
  { unfold lookupSession. by rewrite bool_decide_eq_false_2 by lia. }
  rewrite Hlook in HL, Ht. cbn [fst snd] in HL, Ht. rewrite app_nil_r in Ht.
  split.
  { intros session Hin. subst run.
    rewrite (UploadFile_reach _ _ _ _ _ _ Hp) in Hin. cbn [fst] in Hin.
    rewrite !requests_app, !elem_of_app in Hin. destruct Hin as [Hin|[Hin|Hin]].
    - destruct (checkFileExists_trace u env (filepath_Base filePath) destDir)
        as (n & _ & Hn).
      apply elem_of_requests in Hin. rewrite Ht, Hn in Hin.
      apply elem_of_cons in Hin as [?|Hin]; [done|].
      apply elem_of_cons in Hin as [?|Hin]; [done|].
      by apply elem_of_replicate_inv in Hin.
    - by pose proof (proj1 (Forall_forall _ _) (requests_dispatch u env L) _ Hin).
    - destruct (requests_finish u env L destDir (dispatchParts u env L).2)
        as (k & j & payload & Hf).
      rewrite Hf, elem_of_app in Hin.
      destruct Hin as [Hin|Hin]; by apply elem_of_replicate_inv in Hin. }
  rewrite HL. cbn [L_fileSize L_existingParts L_channelID L_encryptFile].
  split; [|done].
  assert (Int64.in_range (lf_size (env_file env)) ∧ Int64.in_range (partSize u)
          ∧ Int64.in_range 0 ∧ Int64.in_range 1) as (Hr1 & Hr2 & Hr3 & Hr4)
    by (int64_consts; lia).
  assert (totalParts (lf_size (env_file env)) (partSize u) = 1) as Htot.
  { unfold totalParts, Int64.quot, Int64.rem, Int64.add.
    rewrite Z.quot_div_nonneg, Z.rem_mod_nonneg by lia.
    destruct (decide (lf_size (env_file env) = partSize u)) as [Heq|Hne].
    - rewrite Heq, Z.div_same, Z.mod_same by lia.
      rewrite bool_decide_eq_false_2 by (by intros ?). by apply Int64_wrap_id.
    - rewrite Z.div_small, Z.mod_small by lia.
      rewrite bool_decide_eq_true_2 by lia. rewrite (Int64_wrap_id 0) by done.
      by apply Int64_wrap_id. }
  assert (partRange (lf_size (env_file env)) (partSize u) 0
          = (0, lf_size (env_file env))) as Hrange.
  { unfold partRange, Int64.mul, Int64.add.
    rewrite Z.mul_0_l, (Int64_wrap_id 0) by done.
    rewrite Z.add_0_l, Int64_wrap_id by done. case_bool_decide; f_equal; lia. }
  unfold plannedParts. rewrite Htot. change (seqZ 0 1) with [0].
  cbn [fmap list_fmap]. by rewrite Hrange.
Qed.

(** X13. A part size of zero is not rejected: once the existence check
    has answered that the file is new, [UploadFile] panics on the
    division by the part size; no part is uploaded and nothing is
    committed. *)
Theorem zero_part_size_panics u env filePath destDir :
  let f := env_file env in
  lf_open f = None →
  (file_Read f 512).2 = None →
  (checkFileExists u env (filepath_Base filePath) destDir).2 = (false, None) →
  partSize u = 0 →
  let run := UploadFile u env filePath destDir in
  run.2 = Panicked "integer divide by zero"
  ∧ postedParts run.1 = []
  ∧ committed run.1 = [].
Proof.
  intros f Hopen Hread Hcheck Hzero run. subst run.
  assert (∃ t, prepare u env filePath destDir = (t, inl (Panicked "integer divide by zero")))
    as [t Hp].
  { unfold prepare. fold f. rewrite Hopen.
    destruct (file_Read f 512) as [k [e|]]; [done|].
    destruct (checkFileExists _ _ _ _) as [t_exists [exists_ err]].
    simpl in Hcheck. simplify_eq.
    destruct (lookupSession _ _ _ _) as [[t_session uploadFile] existingParts].
    rewrite bool_decide_eq_true_2 by done. eauto. }
  pose proof (postedParts_prepare u env filePath destDir) as Hposted.
  pose proof (committed_prepare u env filePath destDir) as Hcommitted.
  rewrite Hp in Hposted, Hcommitted.
  by rewrite (UploadFile_early _ _ _ _ _ _ Hp).
Qed.

(** X14. Without room for a part worker no part is ever uploaded: with
    a negative worker count [UploadFile] panics when it makes the
    worker channel, with a count of zero it blocks on the first send to
    it, as soon as one part is planned. *)
Theorem no_worker_no_upload u env filePath destDir :
  let f := env_file env in
  lf_open f = None →
  (file_Read f 512).2 = None →
  (checkFileExists u env (filepath_Base filePath) destDir).2 = (false, None) →
  partSize u ≠ 0 →
  0 < totalParts (lf_size f) (partSize u) →
  numWorkers u ≤ 0 →
  let run := UploadFile u env filePath destDir in
  run.2 = (if bool_decide (numWorkers u < 0)
           then Panicked "makechan: size out of range" else Blocked)
  ∧ postedParts run.1 = []
  ∧ committed run.1 = [].
Proof.
  intros f Hopen Hread Hcheck Hpart Htotal Hworkers run. subst run.
  assert (∃ t, prepare u env filePath destDir
               = (t, inl (if bool_decide (numWorkers u < 0)
                          then Panicked "makechan: size out of range" else Blocked)))
    as [t Hp].
  { unfold prepare. fold f. rewrite Hopen.
    destruct (file_Read f 512) as [k [e|]]; [done|].
    destruct (checkFileExists _ _ _ _) as [t_exists [exists_ err]].
    simpl in Hcheck. simplify_eq.
    destruct (lookupSession _ _ _ _) as [[t_session uploadFile] existingParts].
    rewrite bool_decide_eq_false_2 by done.
    rewrite (bool_decide_eq_false_2 (totalParts _ _ < 0)) by lia. cbn [orb].
    case_bool_decide as Hneg; [eauto|].
    destruct (inheritSettings _ _).
    rewrite bool_decide_eq_true_2 by done. rewrite bool_decide_eq_true_2 by lia.
    simpl. eauto. }
  pose proof (postedParts_prepare u env filePath destDir) as Hposted.
  pose proof (committed_prepare u env filePath destDir) as Hcommitted.
  rewrite Hp in Hposted, Hcommitted.
  by rewrite (UploadFile_early _ _ _ _ _ _ Hp).
Qed.

(** A file of 500 bytes with parts of 1000. *)
Lemma small_file_single_part_witness :
  ∃ t L,
    prepare sampleService smallFileWorld "/data/f.bin" "/dst" = (t, inr L)
    ∧ 0 < lf_size (env_file smallFileWorld) ≤ partSize sampleService
    ∧ partSize sampleService ≤ Int64.max_int
    ∧ (∀ session,
         GetSession session
           ∉ requests (UploadFile sampleService smallFileWorld "/data/f.bin" "/dst").1)
    ∧ plannedParts (L_fileSize L) (partSize sampleService)
      = [(0, (0, lf_size (env_file smallFileWorld)))]
    ∧ L_existingParts L = ∅
    ∧ L_channelID L = channelID sampleService
    ∧ L_encryptFile L = encryptFiles sampleService.
Proof.
  eexists _, _. split; [reflexivity|].
  assert (0 < lf_size (env_file smallFileWorld) ≤ partSize sampleService) as Hsmall
    by (vm_compute; split; [reflexivity|discriminate]).
  assert (partSize sampleService ≤ Int64.max_int) as Hfit by (vm_compute; discriminate).
  split; [exact Hsmall|]. split; [exact Hfit|].
  exact (small_file_single_part sampleService smallFileWorld "/data/f.bin" "/dst"
           _ _ eq_refl Hsmall Hfit).
Defined.

(** The 2500-byte file and a part size of zero. *)
Lemma zero_part_size_panics_witness :
  lf_open (env_file freshWorld) = None
  ∧ (file_Read (env_file freshWorld) 512).2 = None
  ∧ (checkFileExists zeroPartService freshWorld "f.bin" "/dst").2 = (false, None)
  ∧ partSize zeroPartService = 0
  ∧ (UploadFile zeroPartService freshWorld "/data/f.bin" "/dst").2
    = Panicked "integer divide by zero"
  ∧ postedParts (UploadFile zeroPartService freshWorld "/data/f.bin" "/dst").1 = []
  ∧ committed (UploadFile zeroPartService freshWorld "/data/f.bin" "/dst").1 = [].
Proof.
  assert (lf_open (env_file freshWorld) = None) as Hopen by reflexivity.
  assert ((file_Read (env_file freshWorld) 512).2 = None) as Hread by reflexivity.
  assert ((checkFileExists zeroPartService freshWorld (filepath_Base "/data/f.bin") "/dst").2
          = (false, None)) as Hnew by reflexivity.
  assert (partSize zeroPartService = 0) as Hzero by reflexivity.
  split; [exact Hopen|]. split; [exact Hread|]. split; [exact Hnew|].
  split; [exact Hzero|].
  exact (zero_part_size_panics zeroPartService freshWorld "/data/f.bin" "/dst"
           Hopen Hread Hnew Hzero).
Defined.

(** The 2500-byte file and a service without part workers. *)
Lemma no_worker_no_upload_witness :
  lf_open (env_file freshWorld) = None
  ∧ (file_Read (env_file freshWorld) 512).2 = None
  ∧ (checkFileExists idleService freshWorld "f.bin" "/dst").2 = (false, None)
  ∧ partSize idleService ≠ 0
  ∧ 0 < totalParts (lf_size (env_file freshWorld)) (partSize idleService)
  ∧ numWorkers idleService ≤ 0
  ∧ (UploadFile idleService freshWorld "/data/f.bin" "/dst").2 = Blocked
  ∧ postedParts (UploadFile idleService freshWorld "/data/f.bin" "/dst").1 = []
  ∧ committed (UploadFile idleService freshWorld "/data/f.bin" "/dst").1 = [].
Proof.
  assert (lf_open (env_file freshWorld) = None) as Hopen by reflexivity.
  assert ((file_Read (env_file freshWorld) 512).2 = None) as Hread by reflexivity.
  assert ((checkFileExists idleService freshWorld (filepath_Base "/data/f.bin") "/dst").2
          = (false, None)) as Hnew by reflexivity.
  assert (partSize idleService ≠ 0) as Hpart by (vm_compute; discriminate).
  assert (0 < totalParts (lf_size (env_file freshWorld)) (partSize idleService)) as Hparts
    by (vm_compute; reflexivity).
  assert (numWorkers idleService ≤ 0) as Hidle by (vm_compute; discriminate).
  split; [exact Hopen|]. split; [exact Hread|]. split; [exact Hnew|].
  split; [exact Hpart|]. split; [exact Hparts|]. split; [exact Hidle|].
  exact (no_worker_no_upload idleService freshWorld "/data/f.bin" "/dst"
           Hopen Hread Hnew Hpart Hparts Hidle).
Defined.

(** ** The directory tree *)

(** Induction over a tree, with the entries of a directory at hand. *)
Lemma fsEntry_tree_ind (P : fsEntry → Prop) :
  (∀ name stat, P (FsFile name stat)) →
  (∀ name readErr entries, Forall P entries → P (FsDir name readErr entries)) →
  ∀ entry, P entry.
Proof.
  intros Hfile Hdir. fix IH 1. intros [name stat|name readErr entries].
  - apply Hfile.
  - apply Hdir. induction entries as [|entry entries IHentries]; constructor.
    + apply IH.
    + apply IHentries.
Qed.

Lemma Int64_wrap_shift z k : Int64.wrap (z + k * 2 ^ 64) = Int64.wrap z.
Proof.
  unfold Int64.wrap. f_equal.
  replace (z + k * 2 ^ 64 + 2 ^ 63) with (z + 2 ^ 63 + k * 2 ^ 64) by lia.
  apply Z_mod_plus_full.
Qed.

Lemma Int64_wrap_congruent z : ∃ k, Int64.wrap z = z + k * 2 ^ 64.
Proof.
  exists (- ((z + 2 ^ 63) `div` 2 ^ 64)). unfold Int64.wrap.
  pose proof (Z.div_mod (z + 2 ^ 63) (2 ^ 64)) as Hdm.
  rewrite pow63, pow64 in *. lia.
Qed.

Lemma Int64_wrap_add_l a b : Int64.wrap (Int64.wrap a + b) = Int64.wrap (a + b).
Proof.
  destruct (Int64_wrap_congruent a) as [k ->].
  replace (a + k * 2 ^ 64 + b) with (a + b + k * 2 ^ 64) by lia.
  apply Int64_wrap_shift.
Qed.

Lemma Int64_wrap_add_r a b : Int64.wrap (a + Int64.wrap b) = Int64.wrap (a + b).
Proof. by rewrite Z.add_comm, Int64_wrap_add_l, Z.add_comm. Qed.

(** The loop of [GetFilesInDirectoryInfo], given that the function is
    right on every entry. *)
Lemma infoEntries_totals entries :
  Forall (λ entry,
            ∀ name readErr sub, entry = FsDir name readErr sub →
              match GetFilesInDirectoryInfo entry with
              | (info, None) =>
                  readable entry
                  ∧ info = services.mkFileInfo (Int64.wrap (fileCount entry))
                             (Int64.wrap (byteCount entry))
              | (info, Some _) => ¬ readable entry ∧ info = services.mkFileInfo 0 0
              end) entries →
  ∀ files bytes,
    let rest_ok := foldr (λ entry rest, readable entry ∧ rest) True entries in
    let count := foldr (λ entry n, fileCount entry + n) 0 entries in
    let size := foldr (λ entry n, byteCount entry + n) 0 entries in
    match infoEntries GetFilesInDirectoryInfo entries
            (services.mkFileInfo (Int64.wrap files) (Int64.wrap bytes)) with
    | (info, None) =>
        rest_ok ∧ info = services.mkFileInfo (Int64.wrap (files + count))
                           (Int64.wrap (bytes + size))
    | (info, Some _) => ¬ rest_ok ∧ info = services.mkFileInfo 0 0
    end.
Proof.
  induction 1 as [|entry entries Hentry _ IH]; intros files bytes; cbn [infoEntries foldr].
  { rewrite !Z.add_0_r. done. }
  destruct entry as [name stat|name readErr sub].
  - cbn [services.TotalFiles services.TotalSize readable fileCount byteCount].
    unfold Int64.add. rewrite Int64_wrap_add_l.
    destruct stat as [e|size].
    + specialize (IH (files + 1) bytes). cbn zeta in IH.
      destruct (infoEntries _ _ _) as [info [err|]].
      * destruct IH as [Hno ->]. split; [tauto|done].
      * destruct IH as [Hok ->]. split; [tauto|]. f_equal; f_equal; lia.
    + rewrite Int64_wrap_add_l. specialize (IH (files + 1) (bytes + size)). cbn zeta in IH.
      destruct (infoEntries _ _ _) as [info [err|]].
      * destruct IH as [Hno ->]. split; [tauto|done].
      * destruct IH as [Hok ->]. split; [tauto|]. f_equal; f_equal; lia.
  - specialize (Hentry name readErr sub eq_refl).
    destruct (GetFilesInDirectoryInfo (FsDir name readErr sub)) as [subInfo [err|]].
    + destruct Hentry as [Hno _]. split; [tauto|done].
    + destruct Hentry as [Hsub ->].
      cbn [services.TotalFiles services.TotalSize]. unfold Int64.add.
      rewrite !Int64_wrap_add_l, !Int64_wrap_add_r.
      specialize (IH (files + fileCount (FsDir name readErr sub))
                     (bytes + byteCount (FsDir name readErr sub))). cbn zeta in IH.
      destruct (infoEntries _ _ _) as [info [err|]].
      * destruct IH as [Hno ->]. split; [tauto|done].
      * destruct IH as [Hok ->]. split; [tauto|]. f_equal; f_equal; lia.
Qed.

Lemma GetFilesInDirectoryInfo_totals dir name readErr entries :
  dir = FsDir name readErr entries →
  match GetFilesInDirectoryInfo dir with
  | (info, None) =>
      readable dir
      ∧ info = services.mkFileInfo (Int64.wrap (fileCount dir)) (Int64.wrap (byteCount dir))
  | (info, Some _) => ¬ readable dir ∧ info = services.mkFileInfo 0 0
  end.
Proof.
  revert name readErr entries.
  induction dir as [name' stat|name' readErr' entries' IH] using fsEntry_tree_ind;
    intros name readErr entries Heq; [done|].
  cbn [GetFilesInDirectoryInfo readable fileCount byteCount].
  destruct readErr' as [err|].
  { split; [|done]. by intros [? _]. }
  pose proof (infoEntries_totals entries' IH 0 0) as Hloop. cbn zeta in Hloop.
  rewrite !Z.add_0_l in Hloop. change (Int64.wrap 0) with 0 in Hloop.
  destruct (infoEntries _ _ _) as [info [err|]].
  - destruct Hloop as [Hno ->]. split; [tauto|done].
  - destruct Hloop as [Hok ->]. done.
Qed.

(** X15. [GetFilesInDirectoryInfo] succeeds exactly when every directory
    of the tree can be read. It then reports the number of files of the
    tree and the sum of the sizes of those that [os.Stat] can examine
    (a file it cannot examine is counted, with no bytes), both reduced
    to 64 bits. When a directory cannot be read, the totals returned
    with the error are zero. *)
Theorem directory_totals name readErr entries :
  let dir := FsDir name readErr entries in
  let res := GetFilesInDirectoryInfo dir in
  (res.2 = None ↔ readable dir)
  ∧ (res.2 = None →
       services.TotalFiles res.1 = Int64.wrap (fileCount dir)
       ∧ services.TotalSize res.1 = Int64.wrap (byteCount dir))
  ∧ (res.2 ≠ None → res.1 = services.mkFileInfo 0 0).
Proof.
  intros dir res. subst res.
  pose proof (GetFilesInDirectoryInfo_totals dir name readErr entries eq_refl) as H.
  destruct (GetFilesInDirectoryInfo dir) as [info [err|]]; cbn [fst snd].
  - destruct H as [Hno ->]. split; [split; [done|tauto]|]. split; done.
  - destruct H as [Hok ->]. split; [done|]. split; [done|]. by intros ?.
Qed.

Example directory_totals_sample :
  GetFilesInDirectoryInfo sampleTree = (services.mkFileInfo 3 2540, None).
Proof. reflexivity. Qed.

Lemma listing_membership_iff name (files : list FileInfo) :
  checkFileExistsInDirectory name files = true ↔ name ∈ fi_Name <$> files.
Proof.
  induction files as [|item files IH]; cbn [checkFileExistsInDirectory].
  - split; [done|]. by intros ?%elem_of_nil.
  - rewrite fmap_cons, elem_of_cons. case_bool_decide as Hname.
    + split; [by left|done].
    + rewrite IH. split; [by right|]. intros [?|?]; [congruence|done].
Qed.

(** ** Remote directories *)

Lemma pacedDirCall_trace {A : Type} u (oracle : nat → attempt A) req dst :
  ∃ n, (1 ≤ n ≤ S (pc_retries (pacer u)))%nat
       ∧ (pacedDirCall u oracle req dst).1.1 = replicate n (WHTTP req).
Proof.
  unfold pacedDirCall.
  pose proof (pacer_Call_count (pacedJSON oracle) (pc_retries (pacer u)) 0%nat (None, dst)) as Hn.
  destruct (pacer_Call _ _ _ _) as [[n s] err]. simpl in *. by exists n.
Qed.

(** The results of a paced call of the walk, read off its last attempt. *)
Lemma pacedDirCall_last {A : Type} u (oracle : nat → attempt A) req dst :
  let res := pacedDirCall u oracle req dst in
  let last := oracle (length res.1.1 - 1)%nat in
  res.1.2.1 = attemptResp last
  ∧ (res.2 = None → ∃ status body, att_res last = CallOk status body ∧ res.1.2.2 = body)
  ∧ (attemptErr last ≠ None → res.2 ≠ None).
Proof.
  unfold pacedDirCall.
  pose proof (pacer_Call_attempts oracle (pc_retries (pacer u)) 0%nat (None, dst))
    as (Hn & _ & _ & Herr & Hresp & Hbody).
  destruct (pacer_Call _ _ _ _) as [[n [resp body]] err]. cbn [fst snd] in *.
  rewrite length_replicate. replace (0 + n - 1)%nat with (n - 1)%nat in * by lia.
  set (a := oracle (n - 1)%nat) in *.
  split; [done|]. split.
  - intros ->. destruct ((attemptVerdict a).1) eqn:Hv; [done|].
    destruct (att_ctx a) as [ce|] eqn:Hctx.
    { destruct (attemptVerdict_cancelled _ _ Hctx) as [_ Hsome]. congruence. }
    rewrite (attemptVerdict_alive _ Hctx) in Herr.
    unfold attemptErr in Herr. destruct (att_res a) as [r e|status b] eqn:Hres; [done|].
    exists status, b. split; [done|]. exact (Hbody status b eq_refl).
  - intros Hfail. rewrite Herr. destruct ((attemptVerdict a).1); [done|].
    destruct (att_ctx a) as [ce|] eqn:Hctx.
    + destruct (attemptVerdict_cancelled _ _ Hctx) as [_ ->]. done.
    + by rewrite (attemptVerdict_alive _ Hctx).
Qed.

Lemma rootedPath_rooted path : ∃ rest, rootedPath path = String "/" rest.
Proof.
  unfold rootedPath. destruct path as [|c rest]; [by eexists|].
  case_bool_decide as Hc; [subst c|]; by eexists.
Qed.

(** X17. [CreateRemoteDir] posts the directory under a path that begins
    with a slash: a path that already does is sent as it is, any other
    (the empty one included) with a slash put in front; the
    normalisation is idempotent. The request is sent at least once and
    nothing else is sent. *)
Theorem created_path_is_rooted u wenv path :
  let rooted := rootedPath path in
  (∃ rest, rooted = String "/" rest)
  ∧ (∀ rest, path = String "/" rest → rooted = path)
  ∧ ((∀ rest, path ≠ String "/" rest) → rooted = String "/" path)
  ∧ rootedPath rooted = rooted
  ∧ ∃ n, (1 ≤ n)%nat
         ∧ (CreateRemoteDir u wenv path).1 = replicate n (WHTTP (PostDirectories rooted)).
Proof.
  intros rooted. subst rooted.
  split; [apply rootedPath_rooted|]. split.
  { intros rest ->. unfold rootedPath. by rewrite bool_decide_eq_true_2. }
  split.
  { intros Hno. unfold rootedPath. destruct path as [|c rest]; [done|].
    case_bool_decide as Hc; [|done]. subst c. by destruct (Hno rest). }
  split.
  { destruct (rootedPath_rooted path) as [rest ->].
    unfold rootedPath. by rewrite bool_decide_eq_true_2. }
  unfold CreateRemoteDir.
  destruct (pacedDirCall_trace u (we_mkdir wenv (rootedPath path))
              (PostDirectories (rootedPath path)) ()) as (n & Hn & Ht).
  destruct (pacedDirCall _ _ _ _) as [[t s] err]. simpl in Ht.
  exists n. split; [lia|done].
Qed.

(** X18. [readMetaDataForPath] sends only the listing request for its
    page. It returns a page only when the call ended without error,
    and the page is then the body of the last answer; when the call
    ended with an error on a 404 answer, the error it returns is
    [ErrorDirNotFound] whatever the original one was. *)
Theorem metadata_page_or_error u wenv path limit page :
  let res := readMetaDataForPath u wenv path limit page in
  let last := we_list wenv path page (length res.1 - 1)%nat in
  (∃ n, (1 ≤ n)%nat ∧ res.1 = replicate n (WHTTP (GetList path limit page)))
  ∧ (∀ info, res.2 = inr info → ∃ status, att_res last = CallOk status info)
  ∧ (∀ err, res.2 = inl err → attemptResp last = Some 404 → err = ErrorDirNotFound)
  ∧ (attemptErr last ≠ None → ∃ err, res.2 = inl err).
Proof.
  intros res last. subst res last. unfold readMetaDataForPath.
  destruct (pacedDirCall_trace u (we_list wenv path page) (GetList path limit page)
              (mkListResponse [] 0)) as (n & Hn & Ht).
  pose proof (pacedDirCall_last u (we_list wenv path page) (GetList path limit page)
                (mkListResponse [] 0)) as (Hresp & Hok & Hfail).
  destruct (pacedDirCall _ _ _ _) as [[t [resp info]] err].
  cbn [fst snd] in *. subst t.
  destruct err as [e|].
  - assert (∃ e', (match resp with
                   | Some status =>
                       if bool_decide (status = 404)
                       then (replicate n (WHTTP (GetList path limit page)),
                             inl ErrorDirNotFound)
                       else (replicate n (WHTTP (GetList path limit page)), inl e)
                   | None => (replicate n (WHTTP (GetList path limit page)), inl e)
                   end : list walkEvent * (error + ListResponse))
                  = (replicate n (WHTTP (GetList path limit page)), inl e')
                  ∧ (resp = Some 404 → e' = ErrorDirNotFound)) as (e' & -> & H404).
    { destruct resp as [status|]; [case_bool_decide as H404; [subst status|]|].
      - by exists ErrorDirNotFound.
      - exists e. split; [done|]. intros [= ?]. done.
      - exists e. split; [done|]. done. }
    cbn [fst snd]. split; [exists n; split; [lia|done]|].
    split; [done|]. split; [|eauto].
    intros err [= <-] H404'. apply H404. by rewrite Hresp.
  - cbn [fst snd]. split; [exists n; split; [lia|done]|].
    destruct (Hok eq_refl) as (status & body & Hres & ->).
    split; [intros info' Heq; injection Heq as <-; exists status; exact Hres|].
    split; [done|]. intros Hne. by destruct (Hfail Hne).
Qed.

(** *** The listing *)

Lemma readMetaDataForPath_trace u wenv path limit page :
  ∃ n, (1 ≤ n)%nat
       ∧ (readMetaDataForPath u wenv path limit page).1
         = replicate n (WHTTP (GetList path limit page)).
Proof.
  unfold readMetaDataForPath.
  destruct (pacedDirCall_trace u (we_list wenv path page) (GetList path limit page)
              (mkListResponse [] 0)) as (n & Hn & Ht).
  destruct (pacedDirCall _ _ _ _) as [[t [resp info]] err]. cbn [fst snd] in Ht. subst t.
  exists n. split; [lia|].
  destruct err as [e|]; [|done]. destruct resp as [status|]; [|done]. by case_bool_decide.
Qed.

Lemma firstError_None {A : Type} (results : list (error + A)) :
  firstError results = None ↔ ∀ err, inl err ∉ results.
Proof.
  induction results as [|[err|x] results IH]; cbn [firstError].
  - split; [|done]. intros _ err Hin. by apply elem_of_nil in Hin.
  - split; [done|]. intros Hno. destruct (Hno err). left.
  - rewrite IH. split.
    + intros Hno err [?|Hin]%elem_of_cons; [done|]. by apply (Hno err).
    + intros Hno err Hin. apply (Hno err). by right.
Qed.

Lemma firstError_Some {A : Type} (results : list (error + A)) err :
  firstError results = Some err → inl err ∈ results.
Proof.
  induction results as [|[err'|x] results IH]; cbn [firstError]; [done| |].
  - intros [= ->]. left.
  - intros Hin. right. by apply IH.
Qed.

Lemma bind_fmap_list {A B C : Type} (f : A → B) (g : B → list C) (l : list A) :
  (f <$> l) ≫= g = l ≫= (λ x, g (f x)).
Proof. induction l as [|x l IH]; [done|]. csimpl. by rewrite IH. Qed.

(** X19. [list] asks for the first page and, when it announces more,
    for every further page up to the announced count, whether or not
    some of them fail. It succeeds exactly when all of them do; the
    listing is then the files of the first page followed by the files
    of the other pages, in an order that depends on their arrival.
    When a page fails, the error is that of one of the failed pages. *)
Theorem listing_merges_pages u wenv path info :
  (readMetaDataForPath u wenv path 500 1).2 = inr info →
  lr_TotalPages info ≠ Int64.max_int →
  let pages := seqZ 2 (lr_TotalPages info - 1) in
  let fetch page := readMetaDataForPath u wenv path 500 page in
  let res := listDir u wenv path in
  (∀ r, WHTTP r ∈ res.1 ↔ ∃ page, r = GetList path 500 page ∧ (page = 1 ∨ page ∈ pages))
  ∧ match res.2 with
    | Some (inr files) =>
        (∀ page, page ∈ pages → ∃ info', (fetch page).2 = inr info')
        ∧ ∃ rest, files = lr_Files info ++ rest
                  ∧ rest ≡ₚ pages ≫= λ page, pageFiles (fetch page).2
    | Some (inl err) => ∃ page, page ∈ pages ∧ (fetch page).2 = inl err
    | None => False
    end.
Proof.
  intros Hfirst Hmax pages fetch res. subst res. unfold listDir.
  destruct (readMetaDataForPath_trace u wenv path 500 1) as (n1 & Hn1 & Ht1).
  destruct (readMetaDataForPath u wenv path 500 1) as [t1 first].
  cbn [fst snd] in Hfirst, Ht1. subst first t1.
  assert (WHTTP (GetList path 500 1) ∈ replicate n1 (WHTTP (GetList path 500 1))) as Hone.
  { apply elem_of_replicate. split; [done|lia]. }
  case_bool_decide as Hmore; cycle 1.
  { cbn [fst snd]. assert (pages = []) as -> by (apply seqZ_nil; lia). split.
    - intros r. split.
      + intros Hin%elem_of_replicate_inv. injection Hin as ->. eauto.
      + intros (page & -> & [->|Hin]); [done|]. by apply elem_of_nil in Hin.
    - split; [intros page Hin; by apply elem_of_nil in Hin|].
      exists []. by rewrite app_nil_r. }
  rewrite bool_decide_eq_false_2 by done.
  fold pages. change (readMetaDataForPath u wenv path 500) with fetch.
  set (finished := schedule (we_picks wenv path) (fetch <$> pages)).
  assert (finished ≡ₚ fetch <$> pages) as Hperm by apply schedule_Permutation.
  assert (∀ r, WHTTP r ∈ replicate n1 (WHTTP (GetList path 500 1)) ++ (finished ≫= fst)
               ↔ ∃ page, r = GetList path 500 page ∧ (page = 1 ∨ page ∈ pages)) as Htrace.
  { intros r. rewrite elem_of_app, Hperm, bind_fmap_list, list_elem_of_bind. split.
    - intros [Hin%elem_of_replicate_inv|(page & Hin & Hpage)].
      + injection Hin as ->. eauto.
      + destruct (readMetaDataForPath_trace u wenv path 500 page) as (n & Hn & Ht).
        unfold fetch in Hin. rewrite Ht in Hin.
        apply elem_of_replicate_inv in Hin. injection Hin as ->. eauto.
    - intros (page & -> & [->|Hpage]); [by left|]. right. exists page. split; [|done].
      destruct (readMetaDataForPath_trace u wenv path 500 page) as (n & Hn & Ht).
      unfold fetch. rewrite Ht. apply elem_of_replicate. split; [done|lia]. }
  destruct (firstError (snd <$> finished)) as [err|] eqn:Herr; cbn [fst snd].
  - split; [done|].
    apply firstError_Some in Herr. rewrite Hperm in Herr.
    apply list_elem_of_fmap in Herr as (x & Hx & (page & -> & Hpage)%list_elem_of_fmap).
    eauto.
  - split; [done|]. split.
    + intros page Hpage.
      destruct ((fetch page).2) as [err|info'] eqn:Hres; [|eauto].
      destruct (proj1 (firstError_None _) Herr err).
      rewrite Hperm. apply list_elem_of_fmap. exists (fetch page). split; [done|].
      apply list_elem_of_fmap. eauto.
    + eexists. split; [done|]. by rewrite Hperm, bind_fmap_list.
Qed.

(** A listing of three pages, the third of which arrives before the
    second. *)
Lemma listing_merges_pages_witness :
  ∃ info,
    (readMetaDataForPath sampleService pagedWalkEnv "/big" 500 1).2 = inr info
    ∧ lr_TotalPages info ≠ Int64.max_int
    ∧ (listDir sampleService pagedWalkEnv "/big").2
      = Some (inr [mkFileInfo "file1"; mkFileInfo "file3"; mkFileInfo "file2"])
    ∧ (∀ r, WHTTP r ∈ (listDir sampleService pagedWalkEnv "/big").1
            ↔ ∃ page, r = GetList "/big" 500 page
                      ∧ (page = 1 ∨ page ∈ seqZ 2 (lr_TotalPages info - 1))).
Proof.
  eexists.
  match goal with
  | |- ?first ∧ _ => assert first as Hfirst by (vm_compute; reflexivity)
  end.
  split; [exact Hfirst|].
  match goal with
  | |- ?bounded ∧ _ => assert bounded as Hbounded by (vm_compute; discriminate)
  end.
  split; [exact Hbounded|].
  split; [vm_compute; reflexivity|].
  exact (proj1 (listing_merges_pages sampleService pagedWalkEnv "/big" _ Hfirst Hbounded)).
Defined.

(** ** The walk *)

Lemma toSlash_noBackslash s : noBackslash (toSlash s).
Proof.
  unfold noBackslash. induction s as [|c s IH]; cbn [toSlash String.list_ascii_of_string].
  - by intros ?%elem_of_nil.
  - intros [Hc|Hin]%elem_of_cons; [|done].
    case_bool_decide as Hb; [|congruence]. by vm_compute in Hc.
Qed.

Lemma rootedPath_noBackslash s : noBackslash s → noBackslash (rootedPath s).
Proof.
  unfold noBackslash, rootedPath. intros Hs.
  assert (backslash ∉ String.list_ascii_of_string ("/" +:+ s)) as Hslash.
  { cbn. intros [Hc|Hin]%elem_of_cons; [by vm_compute in Hc|done]. }
  destruct s as [|c s]; [done|]. by case_bool_decide.
Qed.

Lemma listDir_trace u wenv path e :
  e ∈ (listDir u wenv path).1 → ∃ page, e = WHTTP (GetList path 500 page).
Proof.
  unfold listDir.
  destruct (readMetaDataForPath_trace u wenv path 500 1) as (n1 & _ & Ht1).
  destruct (readMetaDataForPath u wenv path 500 1) as [t1 [err|info]];
    cbn [fst snd] in Ht1; subst t1.
  { intros ->%elem_of_replicate_inv. eauto. }
  case_bool_decide; [|intros ->%elem_of_replicate_inv; eauto].
  case_bool_decide; [intros ->%elem_of_replicate_inv; eauto|].
  set (finished := schedule _ _).
  assert (e ∈ replicate n1 (WHTTP (GetList path 500 1)) ++ (finished ≫= fst)
          → ∃ page, e = WHTTP (GetList path 500 page)) as Hin.
  { rewrite elem_of_app. intros [->%elem_of_replicate_inv|Hin]; [eauto|].
    unfold finished in Hin. rewrite schedule_Permutation, bind_fmap_list in Hin.
    apply list_elem_of_bind in Hin as (page & Hin & _).
    destruct (readMetaDataForPath_trace u wenv path 500 page) as (n & _ & Ht).
    rewrite Ht in Hin. apply elem_of_replicate_inv in Hin. eauto. }
  by destruct (firstError _).
Qed.

Lemma CreateRemoteDir_trace u wenv path :
  ∃ n, (1 ≤ n)%nat
       ∧ (CreateRemoteDir u wenv path).1 = replicate n (WHTTP (PostDirectories (rootedPath path))).
Proof.
  unfold CreateRemoteDir.
  destruct (pacedDirCall_trace u (we_mkdir wenv (rootedPath path))
              (PostDirectories (rootedPath path)) ()) as (n & Hn & Ht).
  destruct (pacedDirCall _ _ _ _) as [[t s] err]. simpl in Ht.
  exists n. split; [lia|done].
Qed.

(** A property of the events of every step is one of the whole loop. *)
Lemma walkEntries_Forall (P : walkEvent → Prop) step entries :
  Forall (λ entry, Forall P (step entry).1) entries →
  Forall P (walkEntries step entries).1.
Proof.
  induction 1 as [|entry entries Hentry _ IH]; cbn [walkEntries]; [constructor|].
  destruct (step entry) as [t [|out]]; cbn [fst] in *; [|done].
  destruct (walkEntries step entries) as [t' out]. cbn [fst] in *.
  by apply Forall_app.
Qed.

(** X20. Whatever separators the destination was given with, the walk
    talks to the remote side in forward slashes only: no directory it
    lists, creates or uploads into has a backslash in its path, and
    every directory it creates is named from the root. *)
Theorem walk_uses_forward_slashes u wenv dir sourcePath destDir :
  Forall slashedEvent (UploadFilesInDirectory u wenv dir sourcePath destDir).1.
Proof.
  revert sourcePath destDir.
  induction dir as [name stat|name readErr entries IH] using fsEntry_tree_ind;
    intros sourcePath destDir; cbn [UploadFilesInDirectory].
  { by repeat constructor. }
  destruct readErr as [err|]; [by repeat constructor|].
  pose proof (listDir_trace u wenv (toSlash destDir)) as Hlist.
  destruct (listDir u wenv (toSlash destDir)) as [t_list listed]. cbn [fst] in Hlist.
  assert (Forall slashedEvent t_list) as Hclean.
  { apply Forall_forall. intros e (page & ->)%Hlist. apply toSlash_noBackslash. }
  destruct listed as [[err|filesInRemote]|]; [| |done].
  { apply Forall_app. split; [done|]. by repeat constructor. }
  pose proof (walkEntries_Forall slashedEvent
                (walkEntry u wenv (UploadFilesInDirectory u wenv) filesInRemote
                   sourcePath (toSlash destDir)) entries) as Hloop.
  destruct (walkEntries _ entries) as [t out]. cbn [fst] in *.
  apply Forall_app. split; [done|]. apply Hloop.
  eapply Forall_impl; [exact IH|]. intros entry Hentry. cbn beta.
  unfold walkEntry. destruct entry as [fname stat|dname dread sub].
  - destruct (checkFileExistsInDirectory _ _).
    + destruct stat; by repeat constructor.
    + case_bool_decide; [constructor|]. repeat constructor. apply toSlash_noBackslash.
  - set (subDir := toSlash _).
    destruct (CreateRemoteDir_trace u wenv subDir) as (n & _ & Hmk).
    destruct (CreateRemoteDir u wenv subDir) as [t_mkdir err]. cbn [fst] in Hmk. subst t_mkdir.
    assert (Forall slashedEvent (replicate n (WHTTP (PostDirectories (rootedPath subDir)))))
      as Hmkdir.
    { apply Forall_replicate. split; [|apply rootedPath_rooted].
      apply rootedPath_noBackslash, toSlash_noBackslash. }
    destruct err as [err|].
    { cbn [fst]. apply Forall_app. split; [done|]. by repeat constructor. }
    specialize (Hentry (we_Join wenv sourcePath dname) subDir).
    cbn [entryName].
    destruct (UploadFilesInDirectory u wenv (FsDir dname dread sub) _ subDir) as [t_sub o].
    cbn [fst] in Hentry.
    destruct o as [[e|]|]; cbn [fst]; rewrite ?Forall_app; repeat split; try done.
    by repeat constructor.
Qed.

Lemma walkEntry_stop u wenv recurse filesInRemote sourcePath destDir entry err :
  (walkEntry u wenv recurse filesInRemote sourcePath destDir entry).2
    = WalkStop (WReturned err) →
  ∃ name e, entry = FsFile name (inl e) ∧ err = Some e
            ∧ checkFileExistsInDirectory name filesInRemote = true.
Proof.
  unfold walkEntry. destruct entry as [name stat|name readErr sub].
  - destruct (checkFileExistsInDirectory _ _) eqn:Hex.
    + destruct stat as [e|size]; [|done]. intros [= <-]. eauto.
    + by case_bool_decide.
  - destruct (CreateRemoteDir _ _ _) as [t_mkdir [e|]]; [done|].
    destruct (recurse _ _ _) as [t_sub [[e|]|]]; done.
Qed.

Lemma walkEntries_error step entries err :
  (walkEntries step entries).2 = WReturned (Some err) →
  ∃ entry, entry ∈ entries ∧ (step entry).2 = WalkStop (WReturned (Some err)).
Proof.
  induction entries as [|entry entries IH]; cbn [walkEntries]; [done|].
  destruct (step entry) as [t [|out]] eqn:Hstep.
  - destruct (walkEntries step entries) as [t' out]. cbn [snd] in *.
    intros Hout. destruct (IH Hout) as (entry' & Hin & Hstop).
    exists entry'. split; [by right|done].
  - cbn [snd]. intros ->. exists entry. split; [left|]. by rewrite Hstep.
Qed.

(** X21. A walk returns an error only for what goes wrong in the
    directory it was called for: the directory cannot be read, its
    remote listing fails, or [os.Stat] fails on one of its files that
    the listing holds. No failure below it is returned (a sub-directory
    that cannot be created, read or listed, a failed upload). *)
Theorem walk_error_is_local u wenv name readErr entries sourcePath destDir err :
  (UploadFilesInDirectory u wenv (FsDir name readErr entries) sourcePath destDir).2
    = WReturned (Some err) →
  readErr = Some err
  ∨ (readErr = None ∧ (listDir u wenv (toSlash destDir)).2 = Some (inl err))
  ∨ (readErr = None
     ∧ ∃ filesInRemote fname,
         (listDir u wenv (toSlash destDir)).2 = Some (inr filesInRemote)
         ∧ FsFile fname (inl err) ∈ entries
         ∧ fname ∈ fi_Name <$> filesInRemote).
Proof.
  cbn [UploadFilesInDirectory].
  destruct readErr as [e|]; [cbn [snd]; intros [= ->]; by left|].
  destruct (listDir u wenv (toSlash destDir)) as [t_list [[e|filesInRemote]|]];
    cbn [snd]; [intros [= ->]; right; by left| |done].
  destruct (walkEntries _ entries) as [t out] eqn:Hloop. cbn [snd]. intros ->.
  right. right. split; [done|].
  assert ((walkEntries
             (walkEntry u wenv (UploadFilesInDirectory u wenv) filesInRemote sourcePath
                (toSlash destDir)) entries).2 = WReturned (Some err)) as Hout
    by (by rewrite Hloop).
  apply walkEntries_error in Hout as (entry & Hin & Hstop).
  apply walkEntry_stop in Hstop as (fname & e & -> & [= ->] & Hex).
  exists filesInRemote, fname. split; [done|]. split; [done|].
  by apply listing_membership_iff.
Qed.

(** A file that the listing holds and that cannot be examined. *)
Lemma walk_error_is_local_witness :
  (UploadFilesInDirectory sampleService sampleWalkEnv unreadableFileTree "/in" "/dst").2
    = WReturned (Some (mkError "permission denied" false))
  ∧ (None = Some (mkError "permission denied" false)
     ∨ ((None : option error) = None
        ∧ (listDir sampleService sampleWalkEnv (toSlash "/dst")).2
          = Some (inl (mkError "permission denied" false)))
     ∨ ((None : option error) = None
        ∧ ∃ filesInRemote fname,
            (listDir sampleService sampleWalkEnv (toSlash "/dst")).2
              = Some (inr filesInRemote)
            ∧ FsFile fname (inl (mkError "permission denied" false))
                ∈ [FsFile "a.bin" (inl (mkError "permission denied" false));
                   FsFile "b.bin" (inr 40)]
            ∧ fname ∈ fi_Name <$> filesInRemote)).
Proof.
  assert ((UploadFilesInDirectory sampleService sampleWalkEnv unreadableFileTree
             "/in" "/dst").2
          = WReturned (Some (mkError "permission denied" false))) as Hout
    by (vm_compute; reflexivity).
  split; [exact Hout|].
  exact (walk_error_is_local sampleService sampleWalkEnv "in" None _ "/in" "/dst" _ Hout).
Defined.

Lemma spawned_app t1 t2 : spawned (t1 ++ t2) = spawned t1 ++ spawned t2.
Proof. apply omap_app. Qed.

Lemma countedExisting_app t1 t2 :
  countedExisting (t1 ++ t2) = countedExisting t1 ++ countedExisting t2.
Proof. apply omap_app. Qed.



Lemma walkEntries_skip step before skipped after t_skipped :
  step skipped = (t_skipped, WalkOn) →
  spawned t_skipped = [] → countedExisting t_skipped = [] →
  (walkEntries step (before ++ skipped :: after)).2 = (walkEntries step (before ++ after)).2
  ∧ spawned (walkEntries step (before ++ skipped :: after)).1
    = spawned (walkEntries step (before ++ after)).1
  ∧ countedExisting (walkEntries step (before ++ skipped :: after)).1
    = countedExisting (walkEntries step (before ++ after)).1.
Proof.
  intros Hstep Hs Hc. induction before as [|entry before IH].
  - cbn [app walkEntries]. rewrite Hstep.
    destruct (walkEntries step after) as [t out]. cbn [fst snd].
    by rewrite spawned_app, countedExisting_app, Hs, Hc.
  - rewrite <-!app_comm_cons. cbn [walkEntries].
    destruct (step entry) as [t [|out]]; [|done].
    destruct (walkEntries step (before ++ skipped :: after)) as [t1 out1].
    destruct (walkEntries step (before ++ after)) as [t2 out2].
    cbn [fst snd] in *. destruct IH as (-> & Hs' & Hc').
    by rewrite !spawned_app, !countedExisting_app, Hs', Hc'.
Qed.

(** X23. A sub-directory that cannot be created remotely is skipped as
    if it were not there: nothing below it is uploaded or counted, and
    the entries after it are walked as before. The walk sends the
    creation request, logs the failure, and goes on. *)
Theorem failed_mkdir_skips_subtree u wenv name before dname dread sub after
    sourcePath destDir :
  let subDir := toSlash (we_Join wenv (toSlash destDir) dname) in
  (CreateRemoteDir u wenv subDir).2 ≠ None →
  let step := walkEntry u wenv (UploadFilesInDirectory u wenv) in
  let walk entries :=
    UploadFilesInDirectory u wenv (FsDir name None entries) sourcePath destDir in
  (∀ filesInRemote,
     step filesInRemote sourcePath (toSlash destDir) (FsDir dname dread sub)
     = ((CreateRemoteDir u wenv subDir).1 ++ [WLog Error "create remote dir failed"], WalkOn))
  ∧ (walk (before ++ FsDir dname dread sub :: after)).2 = (walk (before ++ after)).2
  ∧ spawned (walk (before ++ FsDir dname dread sub :: after)).1
    = spawned (walk (before ++ after)).1
  ∧ countedExisting (walk (before ++ FsDir dname dread sub :: after)).1
    = countedExisting (walk (before ++ after)).1.
Proof.
  intros subDir Hfail step walk.
  assert (∀ filesInRemote,
            step filesInRemote sourcePath (toSlash destDir) (FsDir dname dread sub)
            = ((CreateRemoteDir u wenv subDir).1 ++ [WLog Error "create remote dir failed"],
               WalkOn)) as Hstep.
  { intros filesInRemote. unfold step, walkEntry. fold subDir.
    destruct (CreateRemoteDir u wenv subDir) as [t_mkdir [err|]]; done. }
  split; [done|]. subst walk. cbn [UploadFilesInDirectory].
  destruct (listDir u wenv (toSlash destDir)) as [t_list [[err|filesInRemote]|]]; [done| |done].
  destruct (CreateRemoteDir_trace u wenv subDir) as (n & _ & Hmk).
  pose proof (walkEntries_skip (step filesInRemote sourcePath (toSlash destDir))
                before (FsDir dname dread sub) after _ (Hstep filesInRemote)) as Hskip.
  destruct Hskip as (Hout & Hs & Hc).
  { rewrite spawned_app, Hmk. clear. induction n; done. }
  { rewrite countedExisting_app, Hmk. clear. induction n; done. }
  subst step.
  destruct (walkEntries _ (before ++ FsDir dname dread sub :: after)) as [t1 out1].
  destruct (walkEntries _ (before ++ after)) as [t2 out2].
  cbn [fst snd] in *. by rewrite !spawned_app, !countedExisting_app, Hout, Hs, Hc.
Qed.


(** The directory [sub] of the sample tree cannot be created: the walk
    is that of the two files before it. *)
Lemma failed_mkdir_skips_subtree_witness :
  (CreateRemoteDir sampleService sampleWalkEnv
     (toSlash (we_Join sampleWalkEnv (toSlash "/dst") "sub"))).2 ≠ None
  ∧ spawned (UploadFilesInDirectory sampleService sampleWalkEnv sampleTree "/in" "/dst").1
    = spawned (UploadFilesInDirectory sampleService sampleWalkEnv
                 (FsDir "in" None
                    ([FsFile "a.bin" (inr 2500);
                      FsFile "b.bin" (inl (mkError "permission denied" false))] ++ []))
                 "/in" "/dst").1.
Proof.
  assert ((CreateRemoteDir sampleService sampleWalkEnv
             (toSlash (we_Join sampleWalkEnv (toSlash "/dst") "sub"))).2 ≠ None) as Hfail
    by (vm_compute; discriminate).
  split; [exact Hfail|].
  exact (proj1 (proj2 (proj2
           (failed_mkdir_skips_subtree sampleService sampleWalkEnv "in"
              [FsFile "a.bin" (inr 2500);
               FsFile "b.bin" (inl (mkError "permission denied" false))]
              "sub" None [FsFile "c.bin" (inr 40)] [] "/in" "/dst" Hfail)))).
Defined.

(** ** Rendering *)

Lemma splitLines_nonempty s : splitLines s ≠ [].
Proof.
  destruct s as [|c s]; cbn [splitLines]; [done|].
  case_bool_decide; [done|]. by destruct (splitLines s).
Qed.

Lemma written_writeLines_cons line lines :
  lines ≠ [] →
  written (writeLines (line :: lines))
  = line +:+ String newline (written (writeLines lines)).
Proof. destruct lines as [|l ls]; [done|]. intros _. done. Qed.

Lemma append_nil_r (s : string) : s +:+ "" = s.
Proof.
  induction s as [|c s IH]; [done|].
  change (String c (s +:+ "") = String c s). by rewrite IH.
Qed.

Lemma written_splitLines s : written (writeLines (splitLines s)) = s.
Proof.
  induction s as [|c s IH]; [done|]. cbn [splitLines].
  pose proof (splitLines_nonempty s) as Hne.
  case_bool_decide as Hc.
  - rewrite written_writeLines_cons by done. rewrite IH. by subst c.
  - destruct (splitLines s) as [|line lines]; [done|].
    destruct lines as [|l ls].
    + cbn [writeLines written foldr] in *. rewrite append_nil_r in IH.
      rewrite append_nil_r. by rewrite IH.
    + rewrite written_writeLines_cons in IH by done.
      rewrite written_writeLines_cons by done.
      change (String c (line +:+ String newline (written (writeLines (l :: ls))))
              = String c s).
      by rewrite IH.
Qed.

Lemma length_splitLines s : Z.of_nat (length (splitLines s)) = 1 + countNewlines s.
Proof.
  induction s as [|c s IH]; [done|]. cbn [splitLines countNewlines].
  pose proof (splitLines_nonempty s) as Hne.
  case_bool_decide.
  - cbn [length]. lia.
  - destruct (splitLines s) as [|line lines]; [done|]. cbn [length] in *. lia.
Qed.

(** X24. A render first erases the block of the previous one, then
    writes the statistics followed by the bars, byte for byte; the
    render that comes next steps up once for each newline of that
    text, whatever the line count was before. *)
Theorem render_rewrites_block (nlines : Z) (stats bars stats' bars' : string) :
  let first := clearAndWriteProgress nlines stats bars in
  let second := clearAndWriteProgress first.2 stats' bars' in
  ∃ body body',
    first.1 = mjoin (replicate (Z.to_nat (nlines - 1)) [EraseLine; MoveUp])
              ++ [EraseLine; MoveToStartOfLine] ++ body
    ∧ written body = stats +:+ bars
    ∧ second.1 = mjoin (replicate (Z.to_nat (countNewlines (stats +:+ bars)))
                          [EraseLine; MoveUp])
                 ++ [EraseLine; MoveToStartOfLine] ++ body'
    ∧ written body' = stats' +:+ bars'.
Proof.
  intros first second. subst first second.
  unfold clearAndWriteProgress. cbn [fst snd].
  eexists _, _. split; [done|]. split; [apply written_splitLines|].
  split; [|apply written_splitLines].
  rewrite length_splitLines.
  by replace (1 + countNewlines (stats +:+ bars) - 1)
    with (countNewlines (stats +:+ bars)) by lia.
Qed.

Example render_twice :
  let first := clearAndWriteProgress 0 "Transferred: 0/2" (String newline "bar") in
  let second := clearAndWriteProgress first.2 "done" "" in
  first.1 = [EraseLine; MoveToStartOfLine; "Transferred: 0/2"; String newline ""; "bar"]
  ∧ first.2 = 2
  ∧ second.1 = [EraseLine; MoveUp; EraseLine; MoveToStartOfLine; "done"]
  ∧ second.2 = 1.
Proof. vm_compute. done. Qed.
